(** * River-basin dashboard: colour scales, selection fallback, treemap ranking

    A shallow embedding of the computational core of the dashboard:
    - [src/components/Map.js]: [calculateMonthlyGlobalMinMax],
      [createDivergingColorScale], [createFixedContinuousColorScale],
      [geoJSONStyle] and the colour-scale effect of the [Map] component;
    - [src/components/BarChart.js]: the basin resolution and the monthly series;
    - [src/components/TreeMap.js]: [calculateWaterScarcity].

    JavaScript numbers that come from the JSON data are finite; they are
    embedded as exact rationals ([Q]), and IEEE-754 rounding is not modelled.
    The non-finite numbers the code can produce ([Infinity] from
    [Math.min()] of nothing, [NaN] from [0/0] or from [+undefined]) are
    kept explicit in the type [num]. *)

From Stdlib Require Import QArith Qround ZArith List Lia Permutation Sorted.
From Stdlib Require Import Ascii String Lqa.
From stdpp Require Import base gmap strings.
Import ListNotations.

Open Scope Q_scope.

(** ** JavaScript values *)

(** A property read or a React state cell: [undefined] (absent key, omitted
    argument), [null], or a proper value. *)
Inductive field (A : Type) : Type :=
| Undefined
| Null
| Val (a : A).
Arguments Undefined {A}.
Arguments Null {A}.
Arguments Val {A} a.

(** [v !== null && v !== undefined] and the value it lets through. *)
Definition present {A} (v : field A) : option A :=
  match v with
  | Val a => Some a
  | _ => None
  end.

(** [===] on string-valued cells. *)
Definition strict_eq (a b : field string) : bool :=
  match a, b with
  | Undefined, Undefined => true
  | Null, Null => true
  | Val s, Val t => bool_decide (s = t)
  | _, _ => false
  end.

(** Truthiness of a string-valued cell: [undefined], [null] and the empty
    string are falsy. *)
Definition truthy_str (a : field string) : bool :=
  match a with
  | Val s => negb (bool_decide (s = EmptyString))
  | _ => false
  end.

(** [ToNumber] on a numeric cell that is known not to be [undefined]:
    [null] converts to [0]. *)
Definition to_number (v : field Q) : Q :=
  match v with
  | Val q => q
  | _ => 0
  end.

(** A string-valued cell inside a template literal. *)
Definition to_string (a : field string) : string :=
  match a with
  | Undefined => "undefined"
  | Null => "null"
  | Val s => s
  end.

(** [v || 0] on a numeric cell: [undefined], [null] and [0] are falsy. *)
Definition or_zero (v : field Q) : Q :=
  match v with
  | Val q => if Qeq_bool q 0 then 0 else q
  | _ => 0
  end.

(** JavaScript numbers that need not be finite. *)
Inductive num : Type :=
| NaN
| NegInf
| Fin (q : Q)
| PosInf.

(** ** Features *)

(** The [properties] object of a GeoJSON feature.  The statistics
    ([population], [average], [jan] .. [dec]) are JSON numbers or [null],
    looked up by name; an absent key reads as [undefined]. *)
Record Properties : Type := {
  RIVERBASIN : field string;
  CONTINENT : field string;
  stats : gmap string (option Q)
}.

Record Feature : Type := { properties : Properties }.

(** [f.properties[property]] for a statistic name. *)
Definition prop (f : Feature) (property : string) : field Q :=
  match stats (properties f) !! property with
  | None => Undefined
  | Some None => Null
  | Some (Some q) => Val q
  end.

(** [data.features] *)
Record FeatureCollection : Type := { features : list Feature }.

(** ** Built-ins of the language *)

Module Js.

(** [Array.prototype.sort(comparefn)]: a stable sort.  [comparefn a b < 0]
    places [a] before [b].  Insertion from the right keeps equal elements in
    their original order. *)
Section Sort.
Context {A : Type} (comparefn : A -> A -> Q).

Fixpoint insert (x : A) (l : list A) : list A :=
  match l with
  | [] => [x]
  | y :: l' =>
      if Qle_bool (comparefn x y) 0 then x :: y :: l'
      else y :: insert x l'
  end.

Definition sort (l : list A) : list A := fold_right insert [] l.
End Sort.

(** [a[i]] for an integer index: [undefined] out of range. *)
Definition index {A} (a : list A) (i : Z) : option A :=
  if (i <? 0)%Z then None else nth_error a (Z.to_nat i).

(** [Math.floor] and [Math.round] on finite numbers. *)
Definition floor (x : Q) : Z := Qfloor x.
Definition round (x : Q) : Z := Qfloor (x + (1 # 2)).

(** [<] on finite numbers, as a boolean. *)
Definition ltb (x y : Q) : bool := negb (Qle_bool y x).

(** [Math.min(...xs)] and [Math.max(...xs)]: [Infinity] and [-Infinity] when
    there is no argument. *)
Definition min_all (xs : list Q) : num :=
  fold_left (fun acc x =>
               match acc with
               | Fin m => if ltb x m then Fin x else Fin m
               | _ => Fin x
               end) xs PosInf.

Definition max_all (xs : list Q) : num :=
  fold_left (fun acc x =>
               match acc with
               | Fin m => if ltb m x then Fin x else Fin m
               | _ => Fin x
               end) xs NegInf.

(** Arithmetic and comparison on numbers that need not be finite (the sign
    of zero is not tracked). *)
Definition sub (a b : num) : num :=
  match a, b with
  | NaN, _ | _, NaN => NaN
  | Fin x, Fin y => Fin (x - y)
  | PosInf, PosInf | NegInf, NegInf => NaN
  | PosInf, _ | _, NegInf => PosInf
  | NegInf, _ | _, PosInf => NegInf
  end.

Definition sign_inf (pos : bool) : num := if pos then PosInf else NegInf.

Definition div (a b : num) : num :=
  match a, b with
  | NaN, _ | _, NaN => NaN
  | Fin x, Fin y =>
      if Qeq_bool y 0
      then (if Qeq_bool x 0 then NaN else sign_inf (ltb 0 x))
      else Fin (x / y)
  | Fin _, _ => Fin 0
  | PosInf, Fin y => sign_inf (Qle_bool 0 y)
  | NegInf, Fin y => sign_inf (ltb y 0)
  | _, _ => NaN
  end.

Definition lt (a b : num) : bool :=
  match a, b with
  | NaN, _ | _, NaN => false
  | Fin x, Fin y => ltb x y
  | PosInf, _ | _, NegInf => false
  | NegInf, _ | _, PosInf => true
  end.

Definition le (a b : num) : bool :=
  match a, b with
  | NaN, _ | _, NaN => false
  | Fin x, Fin y => Qle_bool x y
  | NegInf, _ | _, PosInf => true
  | _, _ => false
  end.

(** Truthiness of a number: [0] and [NaN] are falsy. *)
Definition truthy (a : num) : bool :=
  match a with
  | NaN => false
  | Fin x => negb (Qeq_bool x 0)
  | _ => true
  end.

End Js.

(** ** Colours *)

(** An opaque sRGB colour, as d3-color's [rgb] object holds it once a
    literal such as ["#2c7bb6"] has been parsed; formatting it back gives
    ["rgb(r, g, b)"]. *)
Record rgb : Type := Rgb { red : Z; green : Z; blue : Z }.

Definition hex_digit (c : ascii) : option Z :=
  let n := Z.of_nat (nat_of_ascii c) in
  if ((48 <=? n) && (n <=? 57))%Z then Some (n - 48)%Z
  else if ((97 <=? n) && (n <=? 102))%Z then Some (n - 87)%Z
  else if ((65 <=? n) && (n <=? 70))%Z then Some (n - 55)%Z
  else None.

(** The six-digit hexadecimal colour literal [#rrggbb]. *)
Definition hex (s : string) : option rgb :=
  match s with
  | String "#" (String r1 (String r0 (String g1 (String g0
      (String b1 (String b0 EmptyString)))))) =>
      match hex_digit r1, hex_digit r0, hex_digit g1, hex_digit g0,
            hex_digit b1, hex_digit b0 with
      | Some r1, Some r0, Some g1, Some g0, Some b1, Some b0 =>
          Some (Rgb (16 * r1 + r0) (16 * g1 + g0) (16 * b1 + b0))
      | _, _, _, _, _, _ => None
      end
  | _ => None
  end.

Definition colorLow : rgb := Rgb 44 123 182.      (* '#2c7bb6' *)
Definition colorMid : rgb := Rgb 255 255 191.     (* '#ffffbf' *)
Definition colorHigh : rgb := Rgb 215 25 28.      (* '#d7191c' *)
Definition colorLight : rgb := Rgb 254 229 217.   (* '#fee5d9' *)
Definition colorDark : rgb := Rgb 165 15 21.      (* '#a50f15' *)
Definition colorNoData : rgb := Rgb 211 211 211.  (* '#d3d3d3' *)

(** Linear interpolation in one channel, rounded to the nearest integer
    and kept within [0, 255]; and in the three channels of a colour. *)
Definition lerp_channel (a b : Z) (t : Q) : Z :=
  Z.max 0 (Z.min 255 (Js.round (inject_Z a + t * inject_Z (b - a)))).

Definition lerp (c1 c2 : rgb) (t : Q) : rgb :=
  Rgb (lerp_channel (red c1) (red c2) t)
      (lerp_channel (green c1) (green c2) t)
      (lerp_channel (blue c1) (blue c2) t).

(** The same without the bound on the channels. *)
Definition mix (c1 c2 : rgb) (t : Q) : rgb :=
  Rgb (Js.round (inject_Z (red c1) + t * inject_Z (red c2 - red c1)))
      (Js.round (inject_Z (green c1) + t * inject_Z (green c2 - green c1)))
      (Js.round (inject_Z (blue c1) + t * inject_Z (blue c2 - blue c1))).

Definition valid_rgb (c : rgb) : Prop :=
  (0 <= red c <= 255)%Z /\ (0 <= green c <= 255)%Z /\ (0 <= blue c <= 255)%Z.

(** [c1] is at most [c2] in every channel. *)
Definition channels_le (c1 c2 : rgb) : Prop :=
  (red c1 <= red c2)%Z /\ (green c1 <= green c2)%Z /\ (blue c1 <= blue c2)%Z.

(** ** The d3 functions the program calls

    [d3.extent] (d3-array), [d3.scaleLinear] (d3-scale, [continuous.js]) and
    the colour interpolator that a linear scale picks for a range of colour
    strings (d3-interpolate [rgb], d3-color formatting), as published in
    d3 7.  The scale is kept as the data its closure captures; [apply] is
    the call [scale(x)]. *)
Module D3.

(** [d3.extent(values)]: [[undefined, undefined]] when there is no value. *)
Definition extent (values : list Q) : option (Q * Q) :=
  fold_left (fun acc value =>
               match acc with
               | None => Some (value, value)
               | Some (min, max) =>
                   Some (if Js.ltb value min then value else min,
                         if Js.ltb max value then value else max)
               end) values None.

(** [normalize(a, b)]: the position of [x] in [[a, b]]; a segment of zero
    width is sent to [0.5], one with a [NaN] end to [NaN].  The quotient is
    exact here, where d3 rounds it to a double. *)
Definition normalize (a b : num) : Q -> num :=
  let b := Js.sub b a in
  if Js.truthy b
  then fun x => Js.div (Js.sub (Fin x) a) b
  else fun _ => match b with NaN => NaN | _ => Fin (1 # 2) end.

(** [nogamma(a, b)] of d3-interpolate: [a + t * d], or the constant [a]
    when both ends agree. *)
Definition nogamma (a b : Z) : num -> num :=
  let d := (b - a)%Z in
  if (d =? 0)%Z then fun _ => Fin (inject_Z a)
  else fun t =>
         match t with
         | Fin t => Fin (inject_Z a + t * inject_Z d)
         | NaN => NaN
         | PosInf => Js.sign_inf (0 <? d)%Z
         | NegInf => Js.sign_inf (d <? 0)%Z
         end.

(** [clampi] of d3-color:
    [Math.max(0, Math.min(255, Math.round(value) || 0))]. *)
Definition clampi (value : num) : Z :=
  match value with
  | Fin v => Z.max 0 (Z.min 255 (Js.round v))
  | PosInf => 255
  | _ => 0
  end.

(** [interpolateRgb(start, end)(t)], formatted. *)
Definition interpolateRgb (start end_ : rgb) (t : num) : rgb :=
  Rgb (clampi (nogamma (red start) (red end_) t))
      (clampi (nogamma (green start) (green end_) t))
      (clampi (nogamma (blue start) (blue end_) t)).

(** [bisectRight(a, x, lo, hi)] of d3-array, for a finite [x]: the
    [do ... while (lo < hi)] loop runs at most [hi - lo] times. *)
Fixpoint bisect_loop (fuel : nat) (a : list num) (x : Q) (lo hi : nat) : nat :=
  match fuel with
  | O => lo
  | S fuel =>
      let mid := Nat.div2 (lo + hi) in
      let lo' := if Js.le (nth mid a NaN) (Fin x) then S mid else lo in
      let hi' := if Js.le (nth mid a NaN) (Fin x) then hi else mid in
      if (lo' <? hi')%nat then bisect_loop fuel a x lo' hi' else lo'
  end.

Definition bisect (a : list num) (x : Q) (lo hi : nat) : nat :=
  if (lo <? hi)%nat then bisect_loop (hi - lo) a x lo hi else lo.

Definition black : rgb := Rgb 0 0 0.

(** [bimap(domain, range, interpolate)] *)
Definition bimap (domain : list num) (range : list rgb) (x : Q) : rgb :=
  let d0 := nth 0 domain NaN in
  let d1 := nth 1 domain NaN in
  let r0 := nth 0 range black in
  let r1 := nth 1 range black in
  if Js.lt d1 d0
  then interpolateRgb r1 r0 (normalize d1 d0 x)
  else interpolateRgb r0 r1 (normalize d0 d1 x).

(** [polymap(domain, range, interpolate)] *)
Definition polymap (domain : list num) (range : list rgb) (x : Q) : rgb :=
  let j := (Nat.min (length domain) (length range) - 1)%nat in
  let reversed := Js.lt (nth j domain NaN) (nth 0 domain NaN) in
  let domain := if reversed then rev domain else domain in
  let range := if reversed then rev range else range in
  let i := (bisect domain x 1 j - 1)%nat in
  interpolateRgb (nth i range black) (nth (S i) range black)
                 (normalize (nth i domain NaN) (nth (S i) domain NaN) x).

(** The object [d3.scaleLinear().domain(d).range(r)]: its clamp is the
    identity, since [.clamp(true)] is never called on it. *)
Record Scale : Type := { domain : list num; range : list rgb }.

(** [scale(x)] for a finite number [x]. *)
Definition apply (s : Scale) (x : Q) : rgb :=
  let n := Nat.min (length (domain s)) (length (range s)) in
  if (2 <? n)%nat then polymap (domain s) (range s) x
  else bimap (domain s) (range s) x.

End D3.

(** ** Exceptions *)

Inductive result (A : Type) : Type :=
| Ok (a : A)
| Throw (message : string).
Arguments Ok {A} a.
Arguments Throw {A} message.

(** ** [src/components/Map.js] *)

Definition MONTHS : list string :=
  ["jan"; "feb"; "mar"; "apr"; "may"; "jun";
   "jul"; "aug"; "sep"; "oct"; "nov"; "dec"]%string.

Record MinMax : Type := { min : num; max : num }.

(** [data.features.flatMap(f => MONTHS.map(month => f.properties[month])
                                   .filter(v => v !== null && v !== undefined))] *)
Definition allValues (data : FeatureCollection) : list Q :=
  flat_map (fun f => omap present (map (fun month => prop f month) MONTHS))
           (features data).

Definition calculateMonthlyGlobalMinMax (data : FeatureCollection) : MinMax :=
  {| min := Js.min_all (allValues data); max := Js.max_all (allValues data) |}.

(** [data.features.map(f => f.properties[property])
                  .filter(v => v !== null && v !== undefined)] *)
Definition values (data : FeatureCollection) (property : string) : list Q :=
  omap present (map (fun f => prop f property) (features data)).

(** A number read from an array, once [domain] has coerced it:
    [undefined] becomes [NaN]. *)
Definition number (v : option Q) : num :=
  match v with
  | Some q => Fin q
  | None => NaN
  end.

(** The message of the error: [Invalid cutoffType. Use "percentile",
    "mean", or "fixed".] *)
Definition dquote : string := String (ascii_of_nat 34) EmptyString.
Definition invalidCutoffType : string :=
  "Invalid cutoffType. Use " +:+ dquote +:+ "percentile" +:+ dquote +:+ ", "
  +:+ dquote +:+ "mean" +:+ dquote +:+ ", or " +:+ dquote +:+ "fixed"
  +:+ dquote +:+ ".".

(** [createDivergingColorScale(data, property, cutoffType = 'percentile',
    cutoffValue = 0.3)].  An omitted argument is [None].  The percentile
    branch sorts [values] in place, so the extent is taken of the sorted
    array there.  The sum and the quotient of the mean branch are exact
    here, where the program rounds each of them to a double. *)
Definition createDivergingColorScale (data : FeatureCollection)
    (property : string) (cutoffType : option string) (cutoffValue : option Q)
  : result D3.Scale :=
  let cutoffType := default "percentile"%string cutoffType in
  let cutoffValue := default (3 # 10) cutoffValue in
  let values := values data property in
  let branch : result (list Q * num) :=
    if bool_decide (cutoffType = "percentile"%string) then
      let values := Js.sort (fun a b => a - b) values in
      let cutoffIndex :=
        Js.floor (inject_Z (Z.of_nat (length values)) * cutoffValue) in
      Ok (values, number (Js.index values cutoffIndex))
    else if bool_decide (cutoffType = "mean"%string) then
      let mean :=
        Js.div (Fin (fold_left (fun sum v => sum + v) values 0))
               (Fin (inject_Z (Z.of_nat (length values)))) in
      Ok (values, mean)
    else if bool_decide (cutoffType = "fixed"%string) then
      Ok (values, Fin cutoffValue)
    else
      Throw invalidCutoffType
  in
  match branch with
  | Throw e => Throw e
  | Ok (values, minCutoff) =>
      let ext := D3.extent values in
      let minValue := number (fst <$> ext) in
      let maxValue := number (snd <$> ext) in
      Ok {| D3.domain := [minValue; minCutoff; maxValue];
            D3.range := [colorLow; colorMid; colorHigh] |}
  end.

Definition createFixedContinuousColorScale (min max : num) : D3.Scale :=
  {| D3.domain := [min; max]; D3.range := [colorLight; colorDark] |}.

Definition createQuantileColorScale := createDivergingColorScale.

Record Style : Type := {
  fillColor : rgb;
  weight : Z;
  opacity : Q;
  color : string;
  dashArray : string;
  fillOpacity : Q;
  interactive : bool
}.

(** [geoJSONStyle(colorScale, property, feature, selectedMapArea,
    showRivers)].  The call that leaves the last two arguments out passes
    [Undefined] for the selection, and gets the [interactive] of
    [showRivers = false]. *)
Definition geoJSONStyle (colorScale : D3.Scale) (property : string)
    (feature : Feature) (selectedMapArea : field string) (showRivers : bool)
  : Style :=
  let value := prop feature property in
  let isSelected := strict_eq (RIVERBASIN (properties feature)) selectedMapArea in
  {| fillColor := match present value with
                  | None => colorNoData
                  | Some value => D3.apply colorScale value
                  end;
     weight := if isSelected then 5 else 2;
     opacity := 1;
     color := if isSelected then "blue" else "white";
     dashArray := "3";
     fillOpacity := match present value with
                    | None => 1 # 2
                    | Some _ => 7 # 10
                    end;
     interactive := negb showRivers |}.

(** The effect of the [Map] component that rebuilds the colour scale when
    the data, the selected property, the selected month or the monthly
    extrema change.  [None]: the state is left as it is; otherwise the new
    [colorScale] and [isContinuous]. *)
Definition colorScaleEffect (geojsonData : option FeatureCollection)
    (selectedProperty selectedMonth : string)
    (monthlyGlobalMinMax : option MinMax)
  : result (option (D3.Scale * bool)) :=
  let propertyToView :=
    if bool_decide (selectedProperty = "monthly"%string)
    then selectedMonth else selectedProperty in
  match geojsonData with
  | Some geojsonData =>
      if truthy_str (Val propertyToView) then
        match bool_decide (selectedProperty = "monthly"%string),
              monthlyGlobalMinMax with
        | true, Some mm =>
            Ok (Some (createFixedContinuousColorScale (min mm) (max mm), true))
        | _, _ =>
            match createQuantileColorScale geojsonData propertyToView None None with
            | Ok scale => Ok (Some (scale, false))
            | Throw e => Throw e
            end
        end
      else Ok None
  | None => Ok None
  end.

(** The styles the polygon layer of the map gets, one per feature. *)
Definition polygonStyles (colorScale : D3.Scale) (geojsonData : FeatureCollection)
    (property : string) (selectedMapArea : field string) (showRivers : bool)
  : list (Feature * Style) :=
  map (fun feature =>
         (feature, geoJSONStyle colorScale property feature selectedMapArea showRivers))
      (features geojsonData).

(** ** [src/components/BarChart.js] *)

Inductive BarChartView : Type :=
| SelectPrompt       (* "Select a basin on the map to see the chart" *)
| NoDataForBasin     (* "No data available for this basin" *)
| Chart (basinData : Feature) (label : string) (monthlyData : list Q).

(** [data.find(item => item.properties.RIVERBASIN === name)] *)
Definition findBasin (data : list Feature) (name : field string) : option Feature :=
  List.find (fun item => strict_eq (RIVERBASIN (properties item)) name) data.

Definition monthlyData (basinData : Feature) : list Q :=
  [ or_zero (prop basinData "jan");
    or_zero (prop basinData "feb");
    or_zero (prop basinData "mar");
    or_zero (prop basinData "apr");
    or_zero (prop basinData "may");
    or_zero (prop basinData "jun");
    or_zero (prop basinData "jul");
    or_zero (prop basinData "aug");
    or_zero (prop basinData "sep");
    or_zero (prop basinData "oct");
    or_zero (prop basinData "nov");
    or_zero (prop basinData "dec") ].

Definition BarChart (data : list Feature) (selectedBasin : field string)
  : BarChartView :=
  if negb (truthy_str selectedBasin) then SelectPrompt
  else
    let basinData :=
      match findBasin data selectedBasin with
      | Some item => Some item
      | None => findBasin data (Val "AMUR"%string)
      end in
    match basinData with
    | None => NoDataForBasin
    | Some basinData =>
        Chart basinData
              ("Monthly Water Shortage for " +:+ to_string selectedBasin)
              (monthlyData basinData)
    end.

(** ** [src/components/TreeMap.js] *)

Record Node : Type := {
  id : field string;
  value : Q;
  population : field Q;
  waterScarcity : field Q;
  continent : field string
}.

Record Hierarchy : Type := { name : string; children : list Node }.

(** One turn of the [forEach] loop: the feature is skipped when either
    statistic is [undefined], and pushed at the end of [children]
    otherwise. *)
Definition processBasin (children : list Node) (item : Feature) : list Node :=
  let waterScarcity := prop item "average" in
  let population := prop item "population" in
  match waterScarcity, population with
  | Undefined, _ | _, Undefined => children
  | _, _ =>
      let value := to_number waterScarcity * to_number population in
      children ++ [ {| id := RIVERBASIN (properties item);
                       value := value;
                       population := population;
                       waterScarcity := waterScarcity;
                       continent := CONTINENT (properties item) |} ]
  end.

Definition calculateWaterScarcity (data : list Feature) : Hierarchy :=
  let children := fold_left processBasin data [] in
  {| name := "Water Scarcity * Population";
     children := Js.sort (fun a b => value b - value a) children |}.

(** The node the loop pushes for a feature, if it pushes one. *)
Definition nodeOf (item : Feature) : option Node :=
  match prop item "average", prop item "population" with
  | Undefined, _ | _, Undefined => None
  | waterScarcity, population =>
      Some {| id := RIVERBASIN (properties item);
              value := to_number waterScarcity * to_number population;
              population := population;
              waterScarcity := waterScarcity;
              continent := CONTINENT (properties item) |}
  end.

(** ** Sample data *)

Definition basin (name continent_ : string) (st : list (string * option Q)) : Feature :=
  {| properties := {| RIVERBASIN := Val name;
                      CONTINENT := Val continent_;
                      stats := list_to_map st |} |}.

(** Two basins; the first one has no [jul] value. *)
Definition nile : Feature :=
  basin "NILE" "Africa"
        [("population", Some 250000000); ("average", Some (7 # 2));
         ("jan", Some 4); ("feb", Some 5); ("mar", Some 6); ("apr", Some 8);
         ("may", Some 9); ("jun", Some 11); ("aug", Some 10); ("sep", Some 7);
         ("oct", Some 5); ("nov", None); ("dec", Some 3)]%string.

Definition amur : Feature :=
  basin "AMUR" "Asia"
        [("population", Some 70000000); ("average", Some 1);
         ("jan", Some 0); ("feb", Some 1); ("mar", Some 1); ("apr", Some 2);
         ("may", Some 3); ("jun", Some 2); ("jul", Some 2); ("aug", Some 1);
         ("sep", Some 1); ("oct", Some 1); ("nov", Some 0); ("dec", Some 0)]%string.

(** A basin whose average scarcity is [null]. *)
Definition volga : Feature :=
  basin "VOLGA" "Europe" [("population", Some 60000000); ("average", None)]%string.

(** A collection in which [property] takes the given values, one feature
    per value. *)
Definition basinsWith (property : string) (vs : list Q) : FeatureCollection :=
  {| features := map (fun v => basin "B" "Asia" [(property, Some v)]) vs |}.

(** ** Orders and ranks used in the statements *)

(** The order a comparator puts on an array when it is consistent. *)
Definition before {A} (comparefn : A -> A -> Q) (a b : A) : Prop :=
  comparefn a b <= 0.

(** Descending order of a numeric key. *)
Definition descending {A} (key : A -> Q) (a b : A) : Prop := key b <= key a.

(** The number of elements of [l] that satisfy [p]. *)
Fixpoint count_if (p : Q -> bool) (l : list Q) : nat :=
  match l with
  | [] => 0
  | x :: l => (if p x then 1 else 0) + count_if p l
  end.

(** ** More of [src/components/Map.js] *)

Module JsArray.

(** [a.indexOf(x)] on an array of strings: the first index that holds [x],
    or [-1]. *)
Fixpoint indexOf (a : list string) (x : string) : Z :=
  match a with
  | [] => (-1)%Z
  | y :: a' =>
      if bool_decide (y = x) then 0%Z
      else let i := indexOf a' x in
           if (i <? 0)%Z then (-1)%Z else (i + 1)%Z
  end.

End JsArray.

(** The month slider: its position is [MONTHS.indexOf(selectedMonth)], and
    moving it to position [v] stores [MONTHS[v]] ([None]: [undefined]). *)
Definition sliderValue (selectedMonth : string) : Z :=
  JsArray.indexOf MONTHS selectedMonth.

Definition onSliderChange (v : Z) : option string := Js.index MONTHS v.

(** The popup of a polygon ([onEachFeature]).  [propertyValue] is
    [feature.properties[propertyToDisplay] || 'No Data']: [None] stands for
    the text ['No Data'], [Some v] for the number [v] handed to
    [formatNumberWithCommas]. *)
Definition propertyValue (feature : Feature) (propertyToDisplay : string)
  : option Q :=
  match prop feature propertyToDisplay with
  | Val q => if Qeq_bool q 0 then None else Some q
  | _ => None
  end.

(** [feature.properties.RIVERBASIN || 'Unknown Basin'] *)
Definition basinName (feature : Feature) : string :=
  if truthy_str (RIVERBASIN (properties feature))
  then to_string (RIVERBASIN (properties feature))
  else "Unknown Basin".

(** What the [Legend] control reads and shows: the colours of its gradient
    bar and the breakpoints it prints under it ([None]: a destructured
    entry that the domain does not have). *)
Record LegendContent : Type := {
  gradient : list string;
  labels : list (option num)
}.

Definition Legend (colorScale : D3.Scale) (isContinuous : bool) : LegendContent :=
  let dom := D3.domain colorScale in
  if isContinuous
  then {| gradient := ["#fee5d9"; "#a50f15"];
          labels := [nth_error dom 0; nth_error dom 1] |}
  else {| gradient := ["#2c7bb6"; "#ffffbf"; "#d7191c"];
          labels := [nth_error dom 0; nth_error dom 1; nth_error dom 2] |}.

(** ** More of [src/components/TreeMap.js] *)

(** The label of a treemap cell:
    [node.id && node.id.length > 10 ? `${node.id.substring(0, 10)}...` : node.id].
    One character of the model stands for one code unit of the string. *)
Definition label (nodeId : field string) : field string :=
  match nodeId with
  | Val s =>
      if truthy_str nodeId && (10 <? String.length s)%nat
      then Val (substring 0 10 s +:+ "...")
      else Val s
  | other => other
  end.

(** The factors the tooltip prints: [node.data.waterScarcity || 0] and
    [node.data.population || 0]. *)
Definition tooltipFactors (n : Node) : Q * Q :=
  (or_zero (waterScarcity n), or_zero (population n)).

(** ** The shared selection ([src/pages/index.js] and its writers) *)

(** The events that write the selection: pointer-enter and pointer-leave on
    a polygon of the map, pointer-enter on a cell of the treemap. *)
Inductive Event : Type :=
| MapMouseOver (feature : Feature)
| MapMouseOut
| TreeMapMouseEnter (node : Node).

(** [useState(null)] *)
Definition initialSelection : field string := Null.

(** [onMapAreaSelect(feature.properties.RIVERBASIN)], [onMapAreaSelect(null)]
    and [setSelectedBasin(node.id)]: each one overwrites the cell. *)
Definition handleEvent (selectedBasin : field string) (e : Event) : field string :=
  match e with
  | MapMouseOver feature => RIVERBASIN (properties feature)
  | MapMouseOut => Null
  | TreeMapMouseEnter node => id node
  end.

Definition runEvents (events : list Event) : field string :=
  fold_left handleEvent events initialSelection.

(** ** The page ([Home] in [src/pages/index.js]) *)

(** What [Home] renders: the loading screen, or the dashboard with the
    props it hands to the map, the bar chart and the treemap. *)
Inductive HomeView : Type :=
| LoadingScreen
| Dashboard (mapData : option FeatureCollection) (barChartData : list Feature)
            (treeMapData : option FeatureCollection).

(** [geojsonData.features] on the prop, which is [null] when the server
    could not load the file: reading a property of [null] throws a
    [TypeError]. *)
Definition featuresOf (geojsonData : option FeatureCollection)
  : result (list Feature) :=
  match geojsonData with
  | Some d => Ok (features d)
  | None => Throw "TypeError"
  end.

(** One render of [Home] in the state [loading]. *)
Definition renderHome (geojsonData : option FeatureCollection) (loading : bool)
  : result HomeView :=
  if loading then Ok LoadingScreen
  else
    match featuresOf geojsonData with
    | Throw e => Throw e
    | Ok barChartData => Ok (Dashboard geojsonData barChartData geojsonData)
    end.

(** The effect that ends the loading state:
    [if (geojsonData) setLoading(false)]. *)
Definition loadingEffect (geojsonData : option FeatureCollection) (loading : bool)
  : bool :=
  match geojsonData with
  | Some _ => false
  | None => loading
  end.

(** The states of [loading] that a sequence of renders can reach: it starts
    as [true], and each render is followed by the effect. *)
Inductive reachableLoading (geojsonData : option FeatureCollection) : bool -> Prop :=
| reach_initial : reachableLoading geojsonData true
| reach_effect loading :
    reachableLoading geojsonData loading ->
    reachableLoading geojsonData (loadingEffect geojsonData loading).

(** ** Further notions used in the statements *)

(** The elements of an array of nodes whose value is [v], in order. *)
Definition withValue (v : Q) (l : list Node) : list Node :=
  List.filter (fun n => Qeq_bool (value n) v) l.

(** * Properties *)

(** ** Comparisons on [Q] as booleans *)

Lemma ltb_lt (x y : Q) : Js.ltb x y = true <-> x < y.
Proof.
  unfold Js.ltb. rewrite negb_true_iff.
  split; intros H.
  - apply Qnot_le_lt. intros Hle. apply Qle_bool_iff in Hle. congruence.
  - apply not_true_is_false. intros Hle. apply Qle_bool_iff in Hle.
    apply (Qlt_not_le _ _ H Hle).
Qed.

Lemma ltb_ge (x y : Q) : Js.ltb x y = false <-> y <= x.
Proof.
  unfold Js.ltb. rewrite negb_false_iff. apply Qle_bool_iff.
Qed.

Lemma Qle_bool_false (x y : Q) : Qle_bool x y = false <-> y < x.
Proof.
  rewrite <- ltb_lt. unfold Js.ltb. rewrite negb_true_iff. reflexivity.
Qed.

Lemma Qeq_bool_false (x y : Q) : Qeq_bool x y = false <-> ~ x == y.
Proof.
  split.
  - intros H Heq. apply Qeq_bool_iff in Heq. congruence.
  - intros H. apply not_true_is_false. intros Heq. apply H, Qeq_bool_iff, Heq.
Qed.

(** ** [Array.prototype.sort] *)

Section SortFacts.
Context {A : Type} (comparefn : A -> A -> Q).

Lemma insert_perm (x : A) (l : list A) :
  Permutation (Js.insert comparefn x l) (x :: l).
Proof.
  induction l as [|y l IH]; simpl; [reflexivity|].
  destruct (Qle_bool (comparefn x y) 0); [reflexivity|].
  rewrite IH. apply perm_swap.
Qed.

Lemma sort_perm (l : list A) : Permutation (Js.sort comparefn l) l.
Proof.
  induction l as [|x l IH]; simpl; [reflexivity|].
  rewrite insert_perm. now constructor.
Qed.

Lemma sort_length (l : list A) : length (Js.sort comparefn l) = length l.
Proof. apply Permutation_length, sort_perm. Qed.

Hypothesis before_total :
  forall a b, before comparefn a b \/ before comparefn b a.
Hypothesis before_trans :
  forall a b c, before comparefn a b -> before comparefn b c -> before comparefn a c.

Lemma insert_sorted (x : A) (l : list A) :
  StronglySorted (before comparefn) l ->
  StronglySorted (before comparefn) (Js.insert comparefn x l).
Proof.
  induction 1 as [|y l Hl IH Hy]; simpl.
  - repeat constructor.
  - destruct (Qle_bool (comparefn x y) 0) eqn:E.
    + apply Qle_bool_iff in E.
      constructor; [now constructor|].
      constructor; [exact E|].
      eapply List.Forall_impl; [|exact Hy].
      intros z Hz. eapply before_trans; eauto.
    + constructor; [exact IH|].
      assert (Hyx : before comparefn y x).
      { destruct (before_total x y) as [H|H]; [|exact H].
        apply Qle_bool_iff in H. unfold before in *. congruence. }
      rewrite List.Forall_forall. intros z Hz.
      apply (Permutation_in _ (insert_perm x l)) in Hz.
      destruct Hz as [<-|Hz]; [exact Hyx|].
      rewrite List.Forall_forall in Hy. now apply Hy.
Qed.

Lemma sort_sorted (l : list A) :
  StronglySorted (before comparefn) (Js.sort comparefn l).
Proof.
  induction l as [|x l IH]; simpl; [constructor|].
  now apply insert_sorted.
Qed.
End SortFacts.

Lemma StronglySorted_weaken {A} (R1 R2 : A -> A -> Prop) (l : list A) :
  (forall a b, R1 a b -> R2 a b) ->
  StronglySorted R1 l -> StronglySorted R2 l.
Proof.
  intros HR. induction 1 as [|x l Hl IH Hx]; constructor; [exact IH|].
  eapply List.Forall_impl; [|exact Hx]. auto.
Qed.

(** The two comparators of the program: [(a, b) => a - b] sorts numbers in
    ascending order, [(a, b) => b.value - a.value] sorts nodes by
    descending value. *)
Lemma sort_ascending (l : list Q) :
  StronglySorted Qle (Js.sort (fun a b => a - b) l).
Proof.
  apply (StronglySorted_weaken (before (fun a b => a - b))).
  - unfold before. intros a b H.
    apply Qplus_le_l with (z := - b). now rewrite Qplus_opp_r.
  - apply sort_sorted; unfold before.
    + intros a b. destruct (Qlt_le_dec b a) as [H|H].
      * right. apply Qlt_le_weak in H.
        apply Qplus_le_l with (z := a). ring_simplify. exact H.
      * left. apply Qplus_le_l with (z := b). ring_simplify. exact H.
    + intros a b c H1 H2.
      apply Qplus_le_l with (z := c). ring_simplify.
      apply Qle_trans with b.
      * apply Qplus_le_l with (z := - b). rewrite Qplus_opp_r. exact H1.
      * apply Qplus_le_l with (z := - c). rewrite Qplus_opp_r. exact H2.
Qed.

Lemma sort_descending {A} (key : A -> Q) (l : list A) :
  StronglySorted (descending key) (Js.sort (fun a b => key b - key a) l).
Proof.
  apply (StronglySorted_weaken (before (fun a b => key b - key a))).
  - unfold before, descending. intros a b H.
    apply Qplus_le_l with (z := - key a). now rewrite Qplus_opp_r.
  - apply sort_sorted; unfold before.
    + intros a b. destruct (Qlt_le_dec (key b) (key a)) as [H|H].
      * left. apply Qlt_le_weak in H.
        apply Qplus_le_l with (z := key a). ring_simplify. exact H.
      * right. apply Qplus_le_l with (z := key b). ring_simplify. exact H.
    + intros a b c H1 H2.
      apply Qplus_le_l with (z := key a). ring_simplify.
      apply Qle_trans with (key b).
      * apply Qplus_le_l with (z := - key b). rewrite Qplus_opp_r. exact H2.
      * apply Qplus_le_l with (z := - key a). rewrite Qplus_opp_r. exact H1.
Qed.

(** ** Ranks in an ascending array

    The element at index [k] of an ascending arrangement is determined by
    the multiset alone: fewer than or exactly [k] elements are strictly
    smaller, and more than [k] are smaller or equal. *)

Lemma count_if_perm (p : Q -> bool) (l1 l2 : list Q) :
  Permutation l1 l2 -> count_if p l1 = count_if p l2.
Proof.
  induction 1; simpl; lia.
Qed.

Lemma count_if_mono (p q : Q -> bool) (l : list Q) :
  (forall x, p x = true -> q x = true) -> (count_if p l <= count_if q l)%nat.
Proof.
  intros Hpq. induction l as [|x l IH]; simpl; [lia|].
  destruct (p x) eqn:Ep.
  - rewrite (Hpq x Ep). lia.
  - destruct (q x); lia.
Qed.

Lemma count_if_none (p : Q -> bool) (l : list Q) :
  List.Forall (fun x => p x = false) l -> count_if p l = 0%nat.
Proof.
  induction 1 as [|x l Hx _ IH]; simpl; [reflexivity|].
  rewrite Hx, IH. reflexivity.
Qed.

Lemma sorted_rank_lower (l : list Q) :
  StronglySorted Qle l ->
  forall k c, nth_error l k = Some c ->
              (count_if (fun x => Js.ltb x c) l <= k)%nat.
Proof.
  induction 1 as [|x l Hl IH Hx]; intros k c Hk.
  - destruct k; discriminate.
  - destruct k as [|k]; simpl in *.
    + injection Hk as <-.
      assert (E : Js.ltb x x = false) by (apply ltb_ge, Qle_refl).
      rewrite E, count_if_none; [lia|].
      eapply List.Forall_impl; [|exact Hx].
      intros y Hy. now apply ltb_ge.
    + specialize (IH k c Hk). destruct (Js.ltb x c); lia.
Qed.

Lemma sorted_rank_upper (l : list Q) :
  StronglySorted Qle l ->
  forall k c, nth_error l k = Some c ->
              (k < count_if (fun x => Qle_bool x c) l)%nat.
Proof.
  induction 1 as [|x l Hl IH Hx]; intros k c Hk.
  - destruct k; discriminate.
  - destruct k as [|k]; simpl in *.
    + injection Hk as <-.
      assert (E : Qle_bool x x = true) by (apply Qle_bool_iff, Qle_refl).
      rewrite E. lia.
    + specialize (IH k c Hk).
      assert (E : Qle_bool x c = true).
      { apply Qle_bool_iff. rewrite List.Forall_forall in Hx.
        apply Hx. eapply nth_error_In, Hk. }
      rewrite E. lia.
Qed.

Lemma sorted_perm_nth (l1 l2 : list Q) (k : nat) (a b : Q) :
  Permutation l1 l2 ->
  StronglySorted Qle l1 -> StronglySorted Qle l2 ->
  nth_error l1 k = Some a -> nth_error l2 k = Some b ->
  a == b.
Proof.
  intros Hp H1 H2 Ha Hb.
  assert (Hle : forall l l' x y,
             Permutation l l' -> StronglySorted Qle l -> StronglySorted Qle l' ->
             nth_error l k = Some x -> nth_error l' k = Some y -> x <= y).
  { intros l l' x y Hperm Hs Hs' Hx Hy.
    apply Qnot_lt_le. intros Hlt.
    pose proof (sorted_rank_upper l' Hs' k y Hy) as Hup.
    pose proof (sorted_rank_lower l Hs k x Hx) as Hlo.
    rewrite (count_if_perm _ _ _ Hperm) in Hlo.
    pose proof (count_if_mono (fun z => Qle_bool z y) (fun z => Js.ltb z x) l') as Hm.
    assert (count_if (fun z => Qle_bool z y) l' <= count_if (fun z => Js.ltb z x) l')%nat.
    { apply Hm. intros z Hz. apply Qle_bool_iff in Hz. apply ltb_lt.
      eapply Qle_lt_trans; eauto. }
    lia. }
  apply Qle_antisym.
  - eapply Hle; eauto.
  - eapply (Hle l2 l1); eauto. now symmetry.
Qed.

(** ** [d3.extent] *)

Lemma extent_step_some (l : list Q) (mn mx : Q) :
  exists mn' mx',
    fold_left (fun acc value =>
                 match acc with
                 | None => Some (value, value)
                 | Some (min, max) =>
                     Some (if Js.ltb value min then value else min,
                           if Js.ltb max value then value else max)
                 end) l (Some (mn, mx)) = Some (mn', mx')
    /\ mn' <= mn /\ mx <= mx'
    /\ (forall v, In v l -> mn' <= v <= mx')
    /\ (mn' = mn \/ In mn' l) /\ (mx' = mx \/ In mx' l).
Proof.
  revert mn mx. induction l as [|x l IH]; intros mn mx; simpl.
  - exists mn, mx. repeat split; try apply Qle_refl; try tauto.
  - destruct (IH (if Js.ltb x mn then x else mn) (if Js.ltb mx x then x else mx))
      as (mn' & mx' & E & Hmn & Hmx & Hall & Hin1 & Hin2).
    exists mn', mx'. rewrite E.
    assert (A1 : (if Js.ltb x mn then x else mn) <= mn /\ (if Js.ltb x mn then x else mn) <= x).
    { destruct (Js.ltb x mn) eqn:E1.
      - apply ltb_lt in E1. split; [now apply Qlt_le_weak | apply Qle_refl].
      - apply ltb_ge in E1. split; [apply Qle_refl | exact E1]. }
    assert (A2 : mx <= (if Js.ltb mx x then x else mx) /\ x <= (if Js.ltb mx x then x else mx)).
    { destruct (Js.ltb mx x) eqn:E2.
      - apply ltb_lt in E2. split; [now apply Qlt_le_weak | apply Qle_refl].
      - apply ltb_ge in E2. split; [apply Qle_refl | exact E2]. }
    destruct A1 as [A1 A1'], A2 as [A2 A2'].
    split; [reflexivity|].
    split; [eapply Qle_trans; eauto|].
    split; [eapply Qle_trans; eauto|].
    split.
    { intros v [<-|Hv]; [|now apply Hall].
      split; eapply Qle_trans; eauto. }
    split.
    + destruct Hin1 as [->|H]; [|now right; right].
      destruct (Js.ltb x mn); [right; now left | now left].
    + destruct Hin2 as [->|H]; [|now right; right].
      destruct (Js.ltb mx x); [right; now left | now left].
Qed.

Lemma extent_nonempty (l : list Q) :
  l <> [] ->
  exists mn mx, D3.extent l = Some (mn, mx)
                /\ (forall v, In v l -> mn <= v <= mx)
                /\ In mn l /\ In mx l.
Proof.
  destruct l as [|x l]; [congruence|]. intros _.
  unfold D3.extent. simpl.
  destruct (extent_step_some l x x)
    as (mn & mx & E & Hmn & Hmx & Hall & Hin1 & Hin2).
  exists mn, mx. rewrite E. split; [reflexivity|].
  split; [|split].
  - intros v [<-|Hv]; [split; assumption | now apply Hall].
  - destruct Hin1 as [->|H]; [now left | now right].
  - destruct Hin2 as [->|H]; [now left | now right].
Qed.

(** ** The percentile cutoff *)

Lemma floor_three_tenths (n : nat) :
  Js.floor (inject_Z (Z.of_nat n) * (3 # 10)) = (Z.of_nat n * 3 / 10)%Z.
Proof. reflexivity. Qed.

Lemma percentile_index_in_range (n : nat) :
  (0 < n)%nat ->
  (0 <= Js.floor (inject_Z (Z.of_nat n) * (3 # 10)) < Z.of_nat n)%Z.
Proof.
  intros Hn. rewrite floor_three_tenths.
  split.
  - apply Z.div_pos; lia.
  - apply Z.div_lt_upper_bound; lia.
Qed.

(** What the builder returns on the percentile branch at the default
    fraction, for a value set that is not empty. *)
Lemma percentile_scale (data : FeatureCollection) (property : string) :
  values data property <> [] ->
  let sorted := Js.sort (fun a b => a - b) (values data property) in
  let k := Z.to_nat (Js.floor (inject_Z (Z.of_nat (length (values data property))) * (3 # 10))) in
  exists minValue cutoff maxValue,
    createDivergingColorScale data property None None
    = Ok {| D3.domain := [Fin minValue; Fin cutoff; Fin maxValue];
            D3.range := [colorLow; colorMid; colorHigh] |}
    /\ nth_error sorted k = Some cutoff
    /\ D3.extent sorted = Some (minValue, maxValue).
Proof.
  intros Hne sorted k.
  assert (Hlen : length sorted = length (values data property))
    by apply sort_length.
  assert (Hpos : (0 < length (values data property))%nat).
  { destruct (values data property); [congruence | simpl; lia]. }
  pose proof (percentile_index_in_range _ Hpos) as Hk.
  destruct (nth_error sorted k) as [cutoff|] eqn:Ecut.
  2:{ apply nth_error_None in Ecut. subst k. lia. }
  destruct (extent_nonempty sorted) as (mn & mx & Eext & _).
  { intros E. rewrite E in Hlen. simpl in Hlen. lia. }
  exists mn, cutoff, mx.
  split; [|split; [reflexivity | exact Eext]].
  unfold createDivergingColorScale, default. cbv zeta.
  rewrite bool_decide_eq_true_2 by reflexivity.
  fold sorted. rewrite Hlen.
  unfold Js.index.
  destruct (Z.ltb_spec
              (Js.floor (inject_Z (Z.of_nat (length (values data property)))
                         * (3 # 10))) 0);
    [lia|].
  fold k. rewrite Ecut, Eext. reflexivity.
Qed.

(** C1. On the percentile branch with the default fraction 0.3, the cutoff
    (the middle breakpoint of the scale) is the element at index
    [floor (n * 0.3)] of the value set in ascending order, whichever way
    the ascending arrangement was obtained; an explicit ['percentile'] or
    [0.3] changes nothing.  Over the values 1 .. 10 the index is 3 and the
    cutoff is 4, which is not the median element. *)
Theorem percentile_cutoff_is_floor_index :
  (forall data property cutoffType cutoffValue,
      cutoffType = None \/ cutoffType = Some "percentile"%string ->
      cutoffValue = None \/ cutoffValue = Some (3 # 10) ->
      values data property <> [] ->
      let n := length (values data property) in
      let k := Z.to_nat (Js.floor (inject_Z (Z.of_nat n) * (3 # 10))) in
      exists minValue cutoff maxValue,
        createDivergingColorScale data property cutoffType cutoffValue
        = Ok {| D3.domain := [Fin minValue; Fin cutoff; Fin maxValue];
                D3.range := [colorLow; colorMid; colorHigh] |}
        /\ forall ascending,
            Permutation ascending (values data property) ->
            StronglySorted Qle ascending ->
            exists c, nth_error ascending k = Some c /\ c == cutoff)
  /\ (let data := basinsWith "population" [1; 2; 3; 4; 5; 6; 7; 8; 9; 10] in
      Js.floor (inject_Z (Z.of_nat (length (values data "population"))) * (3 # 10)) = 3%Z
      /\ createDivergingColorScale data "population" None None
         = Ok {| D3.domain := [Fin 1; Fin 4; Fin 10];
                 D3.range := [colorLow; colorMid; colorHigh] |}
      /\ nth_error (values data "population") 3 = Some 4
      /\ nth_error (values data "population") (10 / 2) = Some 6).
Proof.
  split.
  - intros data property cutoffType cutoffValue Ht Hv Hne n k.
    destruct (percentile_scale data property Hne)
      as (mn & cutoff & mx & Escale & Ecut & _).
    exists mn, cutoff, mx. split.
    + destruct Ht as [->| ->], Hv as [->| ->]; exact Escale.
    + intros ascending Hperm Hsorted.
      destruct (nth_error ascending k) as [c|] eqn:Ec.
      * exists c. split; [reflexivity|].
        eapply (sorted_perm_nth ascending (Js.sort (fun a b => a - b) (values data property)));
          eauto using sort_ascending.
        rewrite Hperm. symmetry. apply sort_perm.
      * apply nth_error_None in Ec.
        assert (Hlt : (k < length (Js.sort (fun a b : Q => (a - b)%Q) (values data property)))%nat).
        { apply nth_error_Some. unfold k, n. rewrite Ecut. discriminate. }
        rewrite sort_length in Hlt.
        rewrite (Permutation_length Hperm) in Ec. lia.
  - vm_compute. repeat split; reflexivity.
Qed.

Lemma percentile_cutoff_is_floor_index_witness :
  let data := basinsWith "population" [5; 1; 3] in
  exists minValue cutoff maxValue,
    createDivergingColorScale data "population" None None
    = Ok {| D3.domain := [Fin minValue; Fin cutoff; Fin maxValue];
            D3.range := [colorLow; colorMid; colorHigh] |}
    /\ forall ascending,
        Permutation ascending (values data "population") ->
        StronglySorted Qle ascending ->
        exists c, nth_error ascending 0 = Some c /\ c == cutoff.
Proof.
  apply (proj1 percentile_cutoff_is_floor_index
               (basinsWith "population" [5; 1; 3]) "population"%string None None).
  - left; reflexivity.
  - left; reflexivity.
  - vm_compute. discriminate.
Defined.

(** ** The cutoff strategy name *)

(** C7. A cutoff strategy name other than ['percentile'], ['mean'] and
    ['fixed'] makes the builder throw, whatever the data and the cutoff
    value; with one of the three names, or with the name omitted, it returns
    a scale. *)
Theorem unknown_cutoff_type_throws :
  forall data property cutoffValue,
    (forall name,
        name <> "percentile"%string -> name <> "mean"%string ->
        name <> "fixed"%string ->
        createDivergingColorScale data property (Some name) cutoffValue
        = Throw invalidCutoffType)
    /\ (forall cutoffType,
           In cutoffType [None; Some "percentile"; Some "mean"; Some "fixed"]%string ->
           exists scale,
             createDivergingColorScale data property cutoffType cutoffValue
             = Ok scale).
Proof.
  intros data property cutoffValue. split.
  - intros name H1 H2 H3.
    unfold createDivergingColorScale, default. cbv zeta.
    rewrite !bool_decide_eq_false_2 by assumption. reflexivity.
  - intros cutoffType Hin.
    unfold createDivergingColorScale.
    simpl in Hin.
    destruct Hin as [<-|[<-|[<-|[<-|[]]]]]; unfold default; cbv zeta.
    + rewrite bool_decide_eq_true_2 by reflexivity. eexists; reflexivity.
    + rewrite bool_decide_eq_true_2 by reflexivity. eexists; reflexivity.
    + rewrite bool_decide_eq_false_2 by discriminate.
      rewrite bool_decide_eq_true_2 by reflexivity. eexists; reflexivity.
    + rewrite !bool_decide_eq_false_2 by discriminate.
      rewrite bool_decide_eq_true_2 by reflexivity. eexists; reflexivity.
Qed.

Lemma unknown_cutoff_type_throws_witness :
  createDivergingColorScale (basinsWith "population" [1; 2; 3]) "population"
                            (Some "median"%string) None
  = Throw invalidCutoffType
  /\ exists scale,
      createDivergingColorScale (basinsWith "population" [1; 2; 3]) "population"
                                (Some "mean"%string) None
      = Ok scale.
Proof.
  split.
  - apply (proj1 (unknown_cutoff_type_throws
                    (basinsWith "population" [1; 2; 3]) "population"%string None)
                 "median"%string); discriminate.
  - apply (proj2 (unknown_cutoff_type_throws
                    (basinsWith "population" [1; 2; 3]) "population"%string None)
                 (Some "mean"%string)).
    simpl. right. right. left. reflexivity.
Defined.

(** ** Missing values: the chart series and the value sets of the scales *)

Lemma present_Some {A} (v : field A) (a : A) : present v = Some a <-> v = Val a.
Proof. destruct v; simpl; split; congruence. Qed.

Lemma or_zero_missing (v : field Q) : present v = None -> or_zero v = 0.
Proof. destruct v; simpl; congruence. Qed.

Lemma monthlyData_nth (basinData : Feature) (i : nat) (month : string) :
  nth_error MONTHS i = Some month ->
  nth_error (monthlyData basinData) i = Some (or_zero (prop basinData month)).
Proof.
  intros H.
  do 12 (destruct i as [|i]; [injection H as <-; reflexivity|]).
  destruct i; discriminate.
Qed.

Lemma values_In (data : FeatureCollection) (property : string) (v : Q) :
  In v (values data property)
  <-> exists f, In f (features data) /\ prop f property = Val v.
Proof.
  unfold values. rewrite <- list_elem_of_In, list_elem_of_omap. split.
  - intros (x & Hx & Hv). apply list_elem_of_In, in_map_iff in Hx.
    destruct Hx as (f & <- & Hf). exists f. split; [exact Hf|].
    now apply present_Some.
  - intros (f & Hf & Hv). exists (prop f property). split.
    + apply list_elem_of_In, in_map_iff. now exists f.
    + now apply present_Some.
Qed.

Lemma values_skip (fs1 fs2 : list Feature) (f : Feature) (property : string) :
  present (prop f property) = None ->
  values {| features := fs1 ++ f :: fs2 |} property
  = values {| features := fs1 ++ fs2 |} property.
Proof.
  intros H. unfold values. simpl.
  rewrite !map_app, !omap_app. simpl. now rewrite H.
Qed.

Lemma allValues_In (data : FeatureCollection) (v : Q) :
  In v (allValues data)
  <-> exists f month,
      In f (features data) /\ In month MONTHS /\ prop f month = Val v.
Proof.
  unfold allValues. rewrite in_flat_map. split.
  - intros (f & Hf & Hv).
    apply list_elem_of_In, list_elem_of_omap in Hv.
    destruct Hv as (x & Hx & Hv).
    apply list_elem_of_In, in_map_iff in Hx.
    destruct Hx as (month & <- & Hm).
    exists f, month. repeat split; auto. now apply present_Some.
  - intros (f & month & Hf & Hm & Hv). exists f. split; [exact Hf|].
    apply list_elem_of_In, list_elem_of_omap.
    exists (prop f month). split.
    + apply list_elem_of_In, in_map_iff. now exists month.
    + now apply present_Some.
Qed.

(** C5. The bar chart's monthly series always has twelve entries, the
    entry of a month the feature lacks being [0] (index 6 for [jul]); the
    value sets the scales are built from hold exactly the values that
    features really have, so a feature lacking the property contributes
    nothing to them. *)
Theorem missing_value_asymmetry :
  (forall basinData,
      length (monthlyData basinData) = 12%nat
      /\ (forall i month,
             nth_error MONTHS i = Some month ->
             present (prop basinData month) = None ->
             nth_error (monthlyData basinData) i = Some 0)
      /\ (present (prop basinData "jul") = None ->
          nth_error (monthlyData basinData) 6 = Some 0))
  /\ (forall data selectedBasin basinData label series,
         BarChart data selectedBasin = Chart basinData label series ->
         series = monthlyData basinData)
  /\ (forall data property v,
         In v (values data property)
         <-> exists f, In f (features data) /\ prop f property = Val v)
  /\ (forall fs1 f fs2 property,
         present (prop f property) = None ->
         values {| features := fs1 ++ f :: fs2 |} property
         = values {| features := fs1 ++ fs2 |} property)
  /\ (forall data v,
         In v (allValues data)
         <-> exists f month,
             In f (features data) /\ In month MONTHS /\ prop f month = Val v).
Proof.
  split; [|split; [|split; [|split]]].
  - intros basinData. split; [reflexivity|]. split.
    + intros i month Hi Hmiss.
      rewrite (monthlyData_nth _ _ _ Hi), (or_zero_missing _ Hmiss). reflexivity.
    + intros Hmiss.
      rewrite (monthlyData_nth basinData 6 "jul" eq_refl),
        (or_zero_missing _ Hmiss).
      reflexivity.
  - intros data selectedBasin basinData label series.
    unfold BarChart.
    destruct (negb (truthy_str selectedBasin)); [discriminate|].
    destruct (findBasin data selectedBasin) as [item|].
    + intros H. injection H as <- _ <-. reflexivity.
    + destruct (findBasin data (Val "AMUR"%string)) as [item|]; [|discriminate].
      intros H. injection H as <- _ <-. reflexivity.
  - apply values_In.
  - intros fs1 f fs2 property. apply values_skip.
  - apply allValues_In.
Qed.

Lemma missing_value_asymmetry_witness :
  nth_error (monthlyData nile) 6 = Some 0
  /\ values {| features := [amur] ++ nile :: [] |} "jul"
     = values {| features := [amur] ++ [] |} "jul".
Proof.
  destruct missing_value_asymmetry as (Hseries & _ & _ & Hskip & _).
  split.
  - apply (proj2 (proj2 (Hseries nile))). reflexivity.
  - apply (Hskip [amur] nile [] "jul"%string). reflexivity.
Defined.

(** ** The treemap hierarchy *)

Lemma processBasin_nodeOf (children : list Node) (item : Feature) :
  processBasin children item
  = children ++ match nodeOf item with Some n => [n] | None => [] end.
Proof.
  unfold processBasin, nodeOf.
  destruct (prop item "average"), (prop item "population");
    simpl; rewrite ?app_nil_r; reflexivity.
Qed.

Lemma forEach_nodeOf (data : list Feature) (children : list Node) :
  fold_left processBasin data children = children ++ omap nodeOf data.
Proof.
  revert children. induction data as [|item data IH]; intros children; simpl.
  - now rewrite app_nil_r.
  - rewrite IH, processBasin_nodeOf, <- app_assoc.
    destruct (nodeOf item); reflexivity.
Qed.

Lemma children_In (data : list Feature) (n : Node) :
  In n (children (calculateWaterScarcity data))
  <-> exists item, In item data /\ nodeOf item = Some n.
Proof.
  unfold calculateWaterScarcity. simpl.
  rewrite forEach_nodeOf. simpl. split.
  - intros H. apply (Permutation_in _ (sort_perm _ _)) in H.
    apply list_elem_of_In, list_elem_of_omap in H.
    destruct H as (item & Hitem & Hn). exists item.
    split; [now apply list_elem_of_In | exact Hn].
  - intros (item & Hitem & Hn).
    apply (Permutation_in _ (Permutation_sym (sort_perm _ _))).
    apply list_elem_of_In, list_elem_of_omap. exists item.
    split; [now apply list_elem_of_In | exact Hn].
Qed.

Lemma nodeOf_Some (item : Feature) (n : Node) :
  nodeOf item = Some n ->
  prop item "average" <> Undefined /\ prop item "population" <> Undefined
  /\ id n = RIVERBASIN (properties item)
  /\ population n = prop item "population"
  /\ waterScarcity n = prop item "average"
  /\ continent n = CONTINENT (properties item)
  /\ value n = to_number (prop item "average") * to_number (prop item "population").
Proof.
  unfold nodeOf.
  destruct (prop item "average"), (prop item "population");
    intros H; try discriminate; injection H as <-; simpl;
    repeat split; congruence.
Qed.

(** C8. A feature whose population and average scarcity are both numbers
    gets a node whose value is their product, so 1,000,000 and 5 give
    5,000,000; the nodes come out in descending order of value, so no node
    has a larger value than the first one. *)
Theorem treemap_value_and_order :
  (forall data item p a,
      In item data ->
      prop item "population" = Val p -> prop item "average" = Val a ->
      exists n,
        In n (children (calculateWaterScarcity data))
        /\ id n = RIVERBASIN (properties item)
        /\ population n = Val p /\ waterScarcity n = Val a
        /\ continent n = CONTINENT (properties item)
        /\ value n == p * a)
  /\ (forall data,
         StronglySorted (descending value) (children (calculateWaterScarcity data)))
  /\ (forall data first rest,
         children (calculateWaterScarcity data) = first :: rest ->
         forall n, In n rest -> value n <= value first)
  /\ (let X := basin "X" "Asia" [("population", Some 1000000); ("average", Some 5)]%string in
      let Y := basin "Y" "Africa" [("population", Some 30); ("average", Some 2)]%string in
      map (fun n => (id n, value n)) (children (calculateWaterScarcity [Y; X]))
      = [(Val "X", 5000000); (Val "Y", 60)]%string).
Proof.
  split; [|split; [|split]].
  - intros data item p a Hin Hp Ha.
    destruct (nodeOf item) as [n|] eqn:En.
    2:{ unfold nodeOf in En. rewrite Hp, Ha in En. discriminate. }
    exists n. split; [apply children_In; eauto|].
    destruct (nodeOf_Some _ _ En) as (_ & _ & Hid & Hpop & Hws & Hc & Hv).
    rewrite Hid, Hpop, Hws, Hc, Hv, Hp, Ha. simpl.
    repeat split; try reflexivity. apply Qmult_comm.
  - intros data. unfold calculateWaterScarcity. simpl. apply sort_descending.
  - intros data first rest E n Hn.
    assert (Hs : StronglySorted (descending value) (first :: rest)).
    { rewrite <- E. unfold calculateWaterScarcity. simpl. apply sort_descending. }
    apply StronglySorted_inv in Hs. destruct Hs as [_ Hf].
    rewrite List.Forall_forall in Hf. now apply Hf.
  - vm_compute. reflexivity.
Qed.

Lemma treemap_value_and_order_witness :
  let X := basin "X" "Asia" [("population", Some 1000000); ("average", Some 5)]%string in
  exists n,
    In n (children (calculateWaterScarcity [X]))
    /\ id n = Val "X"%string
    /\ population n = Val 1000000 /\ waterScarcity n = Val 5
    /\ continent n = Val "Asia"%string
    /\ value n == 1000000 * 5.
Proof.
  intros X.
  apply (proj1 treemap_value_and_order [X] X 1000000 5).
  - left. reflexivity.
  - reflexivity.
  - reflexivity.
Defined.

(** Every node of the hierarchy comes from a feature whose
    population and average are both present (not [undefined]) and carries
    them unchanged; a feature lacking either one leaves no trace in the
    hierarchy. *)
Theorem treemap_nodes_defined :
  (forall data n,
      In n (children (calculateWaterScarcity data)) ->
      population n <> Undefined /\ waterScarcity n <> Undefined
      /\ exists item,
          In item data
          /\ id n = RIVERBASIN (properties item)
          /\ population n = prop item "population"
          /\ waterScarcity n = prop item "average")
  /\ (forall before item after,
         prop item "population" = Undefined \/ prop item "average" = Undefined ->
         calculateWaterScarcity (before ++ item :: after)
         = calculateWaterScarcity (before ++ after)).
Proof.
  split.
  - intros data n Hn. apply children_In in Hn.
    destruct Hn as (item & Hitem & En).
    destruct (nodeOf_Some _ _ En) as (Hws & Hpop & Hid & Epop & Ews & _).
    rewrite Epop, Ews. repeat split; auto.
    exists item. repeat split; auto.
  - intros l1 item l2 Hmiss.
    unfold calculateWaterScarcity.
    rewrite !forEach_nodeOf. simpl. rewrite !omap_app. simpl.
    assert (E : nodeOf item = None).
    { unfold nodeOf. destruct Hmiss as [-> | ->].
      - destruct (prop item "average"); reflexivity.
      - reflexivity. }
    now rewrite E.
Qed.

Lemma treemap_nodes_defined_witness :
  let X := basin "X" "Asia" [("population", Some 1000000); ("average", Some 5)]%string in
  let Z := basin "Z" "Europe" [("population", Some 12)]%string in
  calculateWaterScarcity ([X] ++ Z :: []) = calculateWaterScarcity ([X] ++ []).
Proof.
  intros X Z.
  apply (proj2 treemap_nodes_defined [X] Z []).
  right. reflexivity.
Defined.

(** ** The selection: bar chart and map *)

Lemma strict_eq_true (a b : field string) : strict_eq a b = true <-> a = b.
Proof.
  destruct a, b; simpl; try (split; congruence).
  rewrite bool_decide_eq_true. split; congruence.
Qed.

Lemma strict_eq_false (a b : field string) : strict_eq a b = false <-> a <> b.
Proof.
  rewrite <- strict_eq_true. destruct (strict_eq a b); split; congruence.
Qed.

Lemma truthy_str_true (a : field string) :
  truthy_str a = true <-> exists s, a = Val s /\ s <> EmptyString.
Proof.
  destruct a; simpl.
  - split; [discriminate | intros (s & H & _); discriminate].
  - split; [discriminate | intros (s & H & _); discriminate].
  - rewrite negb_true_iff, bool_decide_eq_false. split.
    + intros H. now exists a.
    + intros (s & H & Hs). congruence.
Qed.

Lemma findBasin_Some (data : list Feature) (name : field string) (item : Feature) :
  findBasin data name = Some item ->
  In item data /\ RIVERBASIN (properties item) = name.
Proof.
  intros H. apply find_some in H. destruct H as [Hin Heq].
  split; [exact Hin | now apply strict_eq_true].
Qed.

Lemma findBasin_None (data : list Feature) (name : field string) :
  findBasin data name = None <->
  forall item, In item data -> RIVERBASIN (properties item) <> name.
Proof.
  split.
  - intros H item Hin. apply strict_eq_false.
    apply (find_none _ _ H item Hin).
  - intros H. destruct (findBasin data name) as [item|] eqn:E; [|reflexivity].
    apply findBasin_Some in E. destruct E as [Hin Heq].
    exfalso. now apply (H item).
Qed.

(** C9. With no selection ([null] or [undefined]) the bar chart shows the
    prompt, whatever the data; and a chart that shows a basin other than
    the selected one is the chart of a basin named AMUR, shown for a
    selection that is a non-empty name matching no feature. *)
Theorem bar_chart_prompt_and_fallback :
  forall data,
    BarChart data Null = SelectPrompt
    /\ BarChart data Undefined = SelectPrompt
    /\ (forall selectedBasin basinData label series,
           BarChart data selectedBasin = Chart basinData label series ->
           RIVERBASIN (properties basinData) <> selectedBasin ->
           exists name,
             selectedBasin = Val name /\ name <> EmptyString
             /\ (forall item, In item data ->
                              RIVERBASIN (properties item) <> Val name)
             /\ In basinData data
             /\ RIVERBASIN (properties basinData) = Val "AMUR"%string).
Proof.
  intros data. split; [reflexivity|]. split; [reflexivity|].
  intros selectedBasin basinData label series.
  unfold BarChart.
  destruct (truthy_str selectedBasin) eqn:Et; simpl; [|discriminate].
  apply truthy_str_true in Et. destruct Et as (name & -> & Hname).
  destruct (findBasin data (Val name)) as [item|] eqn:E1.
  - intros H Hne. injection H as <- _ _.
    apply findBasin_Some in E1. tauto.
  - destruct (findBasin data (Val "AMUR"%string)) as [item|] eqn:E2;
      [|discriminate].
    intros H _. injection H as <- _ _.
    apply findBasin_Some in E2. destruct E2 as [Hin Hamur].
    exists name. repeat split; auto.
    now apply findBasin_None.
Qed.

Lemma bar_chart_prompt_and_fallback_witness :
  exists name,
    Val "TIBER"%string = Val name /\ name <> EmptyString
    /\ (forall item, In item [nile; amur] ->
                     RIVERBASIN (properties item) <> Val name)
    /\ In amur [nile; amur]
    /\ RIVERBASIN (properties amur) = Val "AMUR"%string.
Proof.
  apply (proj2 (proj2 (bar_chart_prompt_and_fallback [nile; amur]))
               (Val "TIBER"%string) amur
               "Monthly Water Shortage for TIBER"%string (monthlyData amur)).
  - reflexivity.
  - discriminate.
Defined.

(** C4 does not hold as stated: for the collection [nile; amur] and the
    selection TIBER, which names no feature, the map view styles every
    polygon as not selected, the one of AMUR included; and without a feature
    named AMUR the bar chart shows the no-data placeholder. *)
Lemma unmatched_selection_counterexample :
  ~ (forall (data : FeatureCollection) (name : string)
            (colorScale : D3.Scale) (property : string) (showRivers : bool),
        name <> EmptyString ->
        (forall item, In item (features data) ->
                      RIVERBASIN (properties item) <> Val name) ->
        (exists basinData label series,
            BarChart (features data) (Val name) = Chart basinData label series
            /\ RIVERBASIN (properties basinData) = Val "AMUR"%string)
        /\ (exists item style,
               In (item, style)
                  (polygonStyles colorScale data property (Val name) showRivers)
               /\ RIVERBASIN (properties item) = Val "AMUR"%string
               /\ weight style = 5%Z)).
Proof.
  intros H.
  destruct (H {| features := [nile; amur] |} "TIBER"%string
              (createFixedContinuousColorScale (Fin 0) (Fin 100))
              "jan"%string false) as [_ (item & style & Hin & _ & Hw)].
  - discriminate.
  - intros item [<-|[<-|[]]]; discriminate.
  - destruct Hin as [E|[E|[]]]; injection E as <- <-; discriminate.
Qed.

(** C4, amended.  For a selection that is a non-empty name matching no
    feature: the bar chart shows the first feature named AMUR when there is
    one, and the no-data placeholder when there is none; the map view has
    no fallback and styles every polygon as not selected. *)
Theorem unmatched_selection_views :
  forall (data : FeatureCollection) (name : string),
    name <> EmptyString ->
    (forall item, In item (features data) ->
                  RIVERBASIN (properties item) <> Val name) ->
    (forall fallback,
        findBasin (features data) (Val "AMUR"%string) = Some fallback ->
        In fallback (features data)
        /\ RIVERBASIN (properties fallback) = Val "AMUR"%string
        /\ BarChart (features data) (Val name)
           = Chart fallback ("Monthly Water Shortage for " +:+ name)
                   (monthlyData fallback))
    /\ ((forall item, In item (features data) ->
                      RIVERBASIN (properties item) <> Val "AMUR"%string) ->
        BarChart (features data) (Val name) = NoDataForBasin)
    /\ (forall colorScale property showRivers item style,
           In (item, style)
              (polygonStyles colorScale data property (Val name) showRivers) ->
           weight style = 2%Z /\ color style = "white"%string).
Proof.
  intros data name Hname Hnone.
  assert (Et : truthy_str (Val name) = true).
  { apply truthy_str_true. now exists name. }
  assert (E1 : findBasin (features data) (Val name) = None)
    by now apply findBasin_None.
  split; [|split].
  - intros fallback E2.
    destruct (findBasin_Some _ _ _ E2) as [Hin Hn].
    repeat split; auto.
    unfold BarChart. rewrite Et, E1, E2. reflexivity.
  - intros Hamur. apply findBasin_None in Hamur.
    unfold BarChart. rewrite Et, E1, Hamur. reflexivity.
  - intros colorScale property showRivers item style Hin.
    unfold polygonStyles in Hin. apply in_map_iff in Hin.
    destruct Hin as (feature & E & Hf). injection E as -> <-.
    unfold geoJSONStyle. simpl.
    assert (Es : strict_eq (RIVERBASIN (properties item)) (Val name) = false)
      by (apply strict_eq_false; auto).
    rewrite Es. split; reflexivity.
Qed.

Lemma unmatched_selection_views_witness :
  BarChart [nile; amur] (Val "TIBER"%string)
  = Chart amur "Monthly Water Shortage for TIBER" (monthlyData amur)
  /\ BarChart [nile] (Val "TIBER"%string) = NoDataForBasin.
Proof.
  split.
  - refine (proj2 (proj2 (proj1 (unmatched_selection_views
             {| features := [nile; amur] |} "TIBER"%string _ _) amur _))).
    + discriminate.
    + intros item [<-|[<-|[]]]; discriminate.
    + reflexivity.
  - refine (proj1 (proj2 (unmatched_selection_views
             {| features := [nile] |} "TIBER"%string _ _)) _).
    + discriminate.
    + intros item [<-|[]]; discriminate.
    + intros item [<-|[]]; discriminate.
Defined.

(** ** The linear scale *)

(** *** The bisection loop *)

Lemma div2_between (lo hi : nat) :
  (lo < hi)%nat -> (lo <= Nat.div2 (lo + hi) < hi)%nat.
Proof.
  intros H. rewrite Nat.div2_div.
  pose proof (Nat.div_mod_eq (lo + hi) 2) as E.
  pose proof (Nat.mod_upper_bound (lo + hi) 2) as B.
  lia.
Qed.

(** The loop never stops for lack of fuel: any two amounts of at least
    [hi - lo] give the same index. *)
Lemma bisect_loop_enough (a : list num) (x : Q) (fuel1 fuel2 lo hi : nat) :
  (lo < hi)%nat -> (hi - lo <= fuel1)%nat -> (hi - lo <= fuel2)%nat ->
  D3.bisect_loop fuel1 a x lo hi = D3.bisect_loop fuel2 a x lo hi.
Proof.
  revert fuel2 lo hi.
  induction fuel1 as [|fuel1 IH]; intros fuel2 lo hi Hlt H1 H2; [lia|].
  destruct fuel2 as [|fuel2]; [lia|].
  cbn [D3.bisect_loop]. cbv zeta.
  pose proof (div2_between lo hi Hlt) as Hmid.
  destruct (Js.le (nth (Nat.div2 (lo + hi)) a NaN) (Fin x)).
  - destruct (Nat.ltb_spec (S (Nat.div2 (lo + hi))) hi); [|reflexivity].
    apply IH; lia.
  - destruct (Nat.ltb_spec lo (Nat.div2 (lo + hi))); [|reflexivity].
    apply IH; lia.
Qed.

Lemma normalize_proper (a b x : Q) :
  a < b -> D3.normalize (Fin a) (Fin b) x = Fin ((x - a) / (b - a)).
Proof.
  intros Hab. unfold D3.normalize, Js.sub, Js.truthy.
  assert (E : Qeq_bool (b - a) 0 = false).
  { apply Qeq_bool_false. intros H.
    apply (Qlt_irrefl a). apply Qlt_le_trans with b; [exact Hab|].
    apply Qle_lteq. right.
    rewrite <- (Qplus_0_l a), <- H. ring. }
  cbv beta iota zeta. rewrite E. cbn [negb Js.div Js.sub]. rewrite E. reflexivity.
Qed.

Lemma normalize_degenerate (a b x : Q) :
  a == b -> D3.normalize (Fin a) (Fin b) x = Fin (1 # 2).
Proof.
  intros Hab. unfold D3.normalize, Js.sub, Js.truthy.
  assert (E : Qeq_bool (b - a) 0 = true).
  { apply Qeq_bool_iff. rewrite Hab. ring. }
  rewrite E. reflexivity.
Qed.

Lemma apply_three_stops (lo mid hi : Q) (r0 r1 r2 : rgb) (x : Q) :
  lo <= hi ->
  D3.apply {| D3.domain := [Fin lo; Fin mid; Fin hi]; D3.range := [r0; r1; r2] |} x
  = if Qle_bool mid x
    then D3.interpolateRgb r1 r2 (D3.normalize (Fin mid) (Fin hi) x)
    else D3.interpolateRgb r0 r1 (D3.normalize (Fin lo) (Fin mid) x).
Proof.
  intros Hle.
  unfold D3.apply, D3.polymap, D3.bisect.
  cbn [D3.domain D3.range length Nat.min Nat.ltb Nat.leb Nat.sub nth].
  assert (E : Js.lt (Fin hi) (Fin lo) = false) by (now apply ltb_ge).
  rewrite E.
  cbn [D3.bisect_loop Nat.add Nat.div2 nth Js.le].
  destruct (Qle_bool mid x); reflexivity.
Qed.

Lemma apply_two_stops (lo hi : Q) (r0 r1 : rgb) (x : Q) :
  lo <= hi ->
  D3.apply {| D3.domain := [Fin lo; Fin hi]; D3.range := [r0; r1] |} x
  = D3.interpolateRgb r0 r1 (D3.normalize (Fin lo) (Fin hi) x).
Proof.
  intros Hle.
  unfold D3.apply, D3.bimap. cbn [D3.domain D3.range length Nat.min Nat.ltb Nat.leb nth].
  assert (E : Js.lt (Fin hi) (Fin lo) = false) by (now apply ltb_ge).
  rewrite E. reflexivity.
Qed.

(** *** Channels *)

Lemma inject_Z_sub (x y : Z) : inject_Z (x - y) = inject_Z x - inject_Z y.
Proof.
  unfold Z.sub, Qminus. now rewrite inject_Z_plus, inject_Z_opp.
Qed.

Lemma clampi_range (v : num) : (0 <= D3.clampi v <= 255)%Z.
Proof. destruct v; simpl; lia. Qed.

Lemma interpolateRgb_valid (c1 c2 : rgb) (t : num) :
  valid_rgb (D3.interpolateRgb c1 c2 t).
Proof. unfold valid_rgb, D3.interpolateRgb; simpl. auto using clampi_range. Qed.

Lemma round_comp (x y : Q) : x == y -> Js.round x = Js.round y.
Proof. intros H. unfold Js.round. apply Qfloor_comp. now rewrite H. Qed.

Lemma round_mono (x y : Q) : x <= y -> (Js.round x <= Js.round y)%Z.
Proof. intros H. unfold Js.round. apply Qfloor_resp_le. lra. Qed.

Lemma round_Z (n : Z) : Js.round (inject_Z n) = n.
Proof.
  unfold Js.round, Qfloor, Qplus, inject_Z. simpl.
  symmetry. apply Z.div_unique with (r := 1%Z); lia.
Qed.

Lemma nogamma_lerp (a b : Z) (t : Q) :
  D3.clampi (D3.nogamma a b (Fin t)) = lerp_channel a b t.
Proof.
  unfold D3.nogamma, lerp_channel.
  destruct (Z.eqb_spec (b - a) 0) as [E|E]; simpl; [|reflexivity].
  rewrite E. f_equal. f_equal. apply round_comp. simpl. ring.
Qed.

Lemma interpolateRgb_lerp (c1 c2 : rgb) (t : Q) :
  D3.interpolateRgb c1 c2 (Fin t) = lerp c1 c2 t.
Proof.
  unfold D3.interpolateRgb, lerp. now rewrite !nogamma_lerp.
Qed.

Lemma lerp_channel_comp (a b : Z) (t1 t2 : Q) :
  t1 == t2 -> lerp_channel a b t1 = lerp_channel a b t2.
Proof.
  intros H. unfold lerp_channel. f_equal. f_equal.
  apply round_comp. now rewrite H.
Qed.

Lemma lerp_comp (c1 c2 : rgb) (t1 t2 : Q) :
  t1 == t2 -> lerp c1 c2 t1 = lerp c1 c2 t2.
Proof.
  intros H. unfold lerp.
  now rewrite !(lerp_channel_comp _ _ t1 t2 H).
Qed.

Lemma lerp_channel_range (a b : Z) (t : Q) : (0 <= lerp_channel a b t <= 255)%Z.
Proof. unfold lerp_channel. lia. Qed.

Lemma lerp_channel_up (a b : Z) (t1 t2 : Q) :
  (a <= b)%Z -> t1 <= t2 -> (lerp_channel a b t1 <= lerp_channel a b t2)%Z.
Proof.
  intros Hab Ht. unfold lerp_channel.
  assert (H : (Js.round (inject_Z a + t1 * inject_Z (b - a))
               <= Js.round (inject_Z a + t2 * inject_Z (b - a)))%Z).
  { apply round_mono.
    assert (0 <= inject_Z (b - a)) by (rewrite <- (Zle_Qle 0); lia).
    nra. }
  lia.
Qed.

Lemma lerp_channel_down (a b : Z) (t1 t2 : Q) :
  (b <= a)%Z -> t1 <= t2 -> (lerp_channel a b t2 <= lerp_channel a b t1)%Z.
Proof.
  intros Hab Ht. unfold lerp_channel.
  assert (H : (Js.round (inject_Z a + t2 * inject_Z (b - a))
               <= Js.round (inject_Z a + t1 * inject_Z (b - a)))%Z).
  { apply round_mono.
    assert (inject_Z (b - a) <= 0) by (rewrite <- (Zle_Qle _ 0); lia).
    nra. }
  lia.
Qed.

Lemma lerp_channel_inside (a b : Z) (t : Q) :
  (0 <= a <= 255)%Z -> (0 <= b <= 255)%Z -> 0 <= t <= 1 ->
  lerp_channel a b t = Js.round (inject_Z a + t * inject_Z (b - a)).
Proof.
  intros Ha Hb Ht. unfold lerp_channel.
  assert (H0 : 0 <= inject_Z a + t * inject_Z (b - a) <= 255).
  { rewrite inject_Z_sub.
    assert (0 <= inject_Z a <= 255)
      by (change 255 with (inject_Z 255); change 0 with (inject_Z 0);
          rewrite <- !Zle_Qle; lia).
    assert (0 <= inject_Z b <= 255)
      by (change 255 with (inject_Z 255); change 0 with (inject_Z 0);
          rewrite <- !Zle_Qle; lia).
    split; nra. }
  assert (H1 : (Js.round 0 <= Js.round (inject_Z a + t * inject_Z (b - a)))%Z)
    by (apply round_mono; tauto).
  assert (H2 : (Js.round (inject_Z a + t * inject_Z (b - a)) <= Js.round 255)%Z)
    by (apply round_mono; tauto).
  change (Js.round 0) with 0%Z in H1. change (Js.round 255) with 255%Z in H2.
  lia.
Qed.

Lemma lerp_start (c1 c2 : rgb) (t : Q) :
  valid_rgb c1 -> t == 0 -> lerp c1 c2 t = c1.
Proof.
  intros (Hr & Hg & Hb) Ht. rewrite (lerp_comp _ _ _ _ Ht).
  destruct c1 as [r g b]. unfold lerp, lerp_channel. simpl in *.
  rewrite !(round_comp (_ + 0 * _) (inject_Z _)) by ring.
  rewrite !round_Z. f_equal; lia.
Qed.

Lemma lerp_end (c1 c2 : rgb) (t : Q) :
  valid_rgb c2 -> t == 1 -> lerp c1 c2 t = c2.
Proof.
  intros (Hr & Hg & Hb) Ht. rewrite (lerp_comp _ _ _ _ Ht).
  destruct c2 as [r g b]. unfold lerp, lerp_channel. simpl in *.
  rewrite !(round_comp (inject_Z _ + 1 * inject_Z (?[x] - _)) (inject_Z ?x))
    by (rewrite inject_Z_sub; ring).
  rewrite !round_Z. f_equal; lia.
Qed.

Lemma lerp_up (c1 c2 : rgb) (t1 t2 : Q) :
  channels_le c1 c2 -> t1 <= t2 ->
  channels_le (lerp c1 c2 t1) (lerp c1 c2 t2).
Proof.
  intros (Hr & Hg & Hb) Ht. unfold channels_le, lerp. simpl.
  auto using lerp_channel_up.
Qed.

Lemma lerp_down (c1 c2 : rgb) (t1 t2 : Q) :
  channels_le c2 c1 -> t1 <= t2 ->
  channels_le (lerp c1 c2 t2) (lerp c1 c2 t1).
Proof.
  intros (Hr & Hg & Hb) Ht. unfold channels_le, lerp. simpl.
  auto using lerp_channel_down.
Qed.

Lemma lerp_inside (c1 c2 : rgb) (t : Q) :
  valid_rgb c1 -> valid_rgb c2 -> 0 <= t <= 1 ->
  lerp c1 c2 t = mix c1 c2 t.
Proof.
  intros (Hr1 & Hg1 & Hb1) (Hr2 & Hg2 & Hb2) Ht. unfold lerp, mix.
  now rewrite !lerp_channel_inside.
Qed.

Lemma position_mono (a b x y : Q) :
  a < b -> x <= y -> (x - a) / (b - a) <= (y - a) / (b - a).
Proof.
  intros Hab Hxy. unfold Qdiv. apply Qmult_le_compat_r; [lra|].
  apply Qlt_le_weak, Qinv_lt_0_compat. lra.
Qed.

Lemma position_start (a b : Q) : a < b -> (a - a) / (b - a) == 0.
Proof. intros H. field. lra. Qed.

Lemma position_end (a b : Q) : a < b -> (b - a) / (b - a) == 1.
Proof. intros H. field. lra. Qed.

Lemma position_unit (a b x : Q) :
  a < b -> a <= x <= b -> 0 <= (x - a) / (b - a) <= 1.
Proof.
  intros Hab [H1 H2]. split.
  - rewrite <- (position_start a b Hab). now apply position_mono.
  - rewrite <- (position_end a b Hab). now apply position_mono.
Qed.

(** *** The diverging scale *)

Lemma diverging_range data property cutoffType cutoffValue scale :
  createDivergingColorScale data property cutoffType cutoffValue = Ok scale ->
  D3.range scale = [colorLow; colorMid; colorHigh].
Proof.
  unfold createDivergingColorScale. cbv zeta.
  repeat match goal with
         | |- context [bool_decide ?P] => destruct (bool_decide P)
         end; intros H; try discriminate; injection H as <-; reflexivity.
Qed.

(** The scale with three proper, increasing breakpoints, as a function of
    its input. *)
Lemma diverging_apply (lo mid hi x : Q) :
  lo < mid -> mid < hi ->
  D3.apply {| D3.domain := [Fin lo; Fin mid; Fin hi];
              D3.range := [colorLow; colorMid; colorHigh] |} x
  = if Qle_bool mid x
    then lerp colorMid colorHigh ((x - mid) / (hi - mid))
    else lerp colorLow colorMid ((x - lo) / (mid - lo)).
Proof.
  intros H1 H2. rewrite apply_three_stops by lra.
  rewrite !normalize_proper, !interpolateRgb_lerp by assumption.
  reflexivity.
Qed.

(** The colour literals of the program, parsed. *)
Lemma hex_literals :
  hex "#2c7bb6" = Some colorLow /\ hex "#ffffbf" = Some colorMid
  /\ hex "#d7191c" = Some colorHigh /\ hex "#fee5d9" = Some colorLight
  /\ hex "#a50f15" = Some colorDark /\ hex "#d3d3d3" = Some colorNoData.
Proof. repeat split; reflexivity. Qed.

Lemma valid_stops :
  valid_rgb colorLow /\ valid_rgb colorMid /\ valid_rgb colorHigh
  /\ valid_rgb colorLight /\ valid_rgb colorDark.
Proof. unfold valid_rgb; simpl. lia. Qed.

Lemma stops_order :
  channels_le colorLow colorMid /\ channels_le colorHigh colorMid
  /\ channels_le colorDark colorLight.
Proof. unfold channels_le; simpl. lia. Qed.

(** C2 does not hold as stated: the scale is not clamped.  Over the values
    0, 10, 20, 30 the breakpoints are 0, 10, 30, and the input -1, below the
    minimum, gets rgb(23, 110, 181), which is not colorLow; the input 31,
    above the maximum, gets rgb(213, 14, 20), which is not colorHigh. *)
Lemma diverging_scale_clamp_counterexample :
  ~ (forall data property scale lo mid hi,
        createDivergingColorScale data property None None = Ok scale ->
        D3.domain scale = [Fin lo; Fin mid; Fin hi] ->
        (forall x, x < lo -> D3.apply scale x = colorLow)
        /\ (forall x, hi < x -> D3.apply scale x = colorHigh)).
Proof.
  intros H.
  destruct (H (basinsWith "population" [0; 10; 20; 30]) "population"%string
              {| D3.domain := [Fin 0; Fin 10; Fin 30];
                 D3.range := [colorLow; colorMid; colorHigh] |}
              0 10 30 eq_refl eq_refl) as [Hlow _].
  specialize (Hlow (-1) eq_refl). vm_compute in Hlow. discriminate.
Qed.

(** *** One distinct value *)

(** A scale whose three breakpoints coincide: d3 places every input at the
    middle of a segment. *)
Lemma degenerate_apply (lo mid hi v x : Q) :
  lo == v -> mid == v -> hi == v ->
  D3.apply {| D3.domain := [Fin lo; Fin mid; Fin hi];
              D3.range := [colorLow; colorMid; colorHigh] |} x
  = if Qle_bool v x then Rgb 235 140 110 else Rgb 150 189 187.
Proof.
  intros Hlo Hmid Hhi.
  rewrite apply_three_stops by (rewrite Hlo, Hhi; apply Qle_refl).
  rewrite !normalize_degenerate by (rewrite ?Hlo, ?Hmid, ?Hhi; reflexivity).
  assert (E : Qle_bool mid x = Qle_bool v x).
  { destruct (Qle_bool v x) eqn:Ev.
    - apply Qle_bool_iff. apply Qle_bool_iff in Ev. now rewrite Hmid.
    - apply Qle_bool_false. apply Qle_bool_false in Ev. now rewrite Hmid. }
  rewrite E. destruct (Qle_bool v x); reflexivity.
Qed.

(** C3 does not hold as stated: with the single value 7 the three
    breakpoints are 7, 7, 7 and the input 7 gets rgb(235, 140, 110), not
    colorMid. *)
Lemma single_value_counterexample :
  ~ (forall data property v scale,
        values data property <> [] ->
        (forall w, In w (values data property) -> w == v) ->
        createDivergingColorScale data property None None = Ok scale ->
        forall x, D3.apply scale x = colorMid).
Proof.
  intros H.
  specialize (H (basinsWith "population" [7]) "population"%string 7
                {| D3.domain := [Fin 7; Fin 7; Fin 7];
                   D3.range := [colorLow; colorMid; colorHigh] |}).
  assert (E : D3.apply {| D3.domain := [Fin 7; Fin 7; Fin 7];
                          D3.range := [colorLow; colorMid; colorHigh] |} 7
              = colorMid).
  { apply H.
    - discriminate.
    - intros w [<-|[]]. reflexivity.
    - reflexivity. }
  vm_compute in E. discriminate.
Qed.

(** ** The fixed continuous scale of the monthly data *)

Lemma min_all_from (l : list Q) (m : Q) :
  exists m',
    fold_left (fun acc x =>
                 match acc with
                 | Fin m => if Js.ltb x m then Fin x else Fin m
                 | _ => Fin x
                 end) l (Fin m) = Fin m'
    /\ m' <= m /\ (forall v, In v l -> m' <= v) /\ (m' = m \/ In m' l).
Proof.
  revert m. induction l as [|x l IH]; intros m; cbn [fold_left].
  - exists m. repeat split; [apply Qle_refl | intros v [] | now left].
  - destruct (Js.ltb x m) eqn:E.
    + apply ltb_lt in E.
      destruct (IH x) as (m' & Em & Hle & Hall & Hin). exists m'.
      rewrite Em. split; [reflexivity|]. split; [lra|]. split.
      * intros v [<-|Hv]; [exact Hle | now apply Hall].
      * right. destruct Hin as [->|Hin]; [now left | now right].
    + apply ltb_ge in E.
      destruct (IH m) as (m' & Em & Hle & Hall & Hin). exists m'.
      rewrite Em. split; [reflexivity|]. split; [exact Hle|]. split.
      * intros v [<-|Hv]; [lra | now apply Hall].
      * destruct Hin as [->|Hin]; [now left | right; now right].
Qed.

Lemma max_all_from (l : list Q) (m : Q) :
  exists m',
    fold_left (fun acc x =>
                 match acc with
                 | Fin m => if Js.ltb m x then Fin x else Fin m
                 | _ => Fin x
                 end) l (Fin m) = Fin m'
    /\ m <= m' /\ (forall v, In v l -> v <= m') /\ (m' = m \/ In m' l).
Proof.
  revert m. induction l as [|x l IH]; intros m; cbn [fold_left].
  - exists m. repeat split; [apply Qle_refl | intros v [] | now left].
  - destruct (Js.ltb m x) eqn:E.
    + apply ltb_lt in E.
      destruct (IH x) as (m' & Em & Hle & Hall & Hin). exists m'.
      rewrite Em. split; [reflexivity|]. split; [lra|]. split.
      * intros v [<-|Hv]; [exact Hle | now apply Hall].
      * right. destruct Hin as [->|Hin]; [now left | now right].
    + apply ltb_ge in E.
      destruct (IH m) as (m' & Em & Hle & Hall & Hin). exists m'.
      rewrite Em. split; [reflexivity|]. split; [exact Hle|]. split.
      * intros v [<-|Hv]; [lra | now apply Hall].
      * destruct Hin as [->|Hin]; [now left | right; now right].
Qed.

Lemma min_max_all (l : list Q) :
  l <> [] ->
  exists mn mx,
    Js.min_all l = Fin mn /\ Js.max_all l = Fin mx
    /\ (forall v, In v l -> mn <= v <= mx)
    /\ In mn l /\ In mx l.
Proof.
  destruct l as [|x l]; [congruence|]. intros _.
  unfold Js.min_all, Js.max_all. cbn [fold_left].
  destruct (min_all_from l x) as (mn & Emn & Hmn & Hmin & Hinmn).
  destruct (max_all_from l x) as (mx & Emx & Hmx & Hmax & Hinmx).
  exists mn, mx. rewrite Emn, Emx. repeat split; try reflexivity.
  - destruct H as [<-|Hv]; [exact Hmn | now apply Hmin].
  - destruct H as [<-|Hv]; [exact Hmx | now apply Hmax].
  - destruct Hinmn as [->|H]; [now left | now right].
  - destruct Hinmx as [->|H]; [now left | now right].
Qed.

Lemma continuous_apply (mn mx x : Q) :
  mn < mx ->
  D3.apply (createFixedContinuousColorScale (Fin mn) (Fin mx)) x
  = lerp colorLight colorDark ((x - mn) / (mx - mn)).
Proof.
  intros H. unfold createFixedContinuousColorScale.
  rewrite apply_two_stops by lra.
  now rewrite normalize_proper, interpolateRgb_lerp.
Qed.

(** * Further properties of the code *)

(** ** Breakpoints of the diverging scale *)

(** On the percentile branch at the default fraction, over a value set
    that is not empty: the outer breakpoints are the least and the greatest
    value, the cutoff is one of the values and lies between them. *)
Theorem percentile_breakpoints :
  forall data property,
    values data property <> [] ->
    exists lo mid hi,
      createDivergingColorScale data property None None
      = Ok {| D3.domain := [Fin lo; Fin mid; Fin hi];
              D3.range := [colorLow; colorMid; colorHigh] |}
      /\ (forall v, In v (values data property) -> lo <= v <= hi)
      /\ In lo (values data property)
      /\ In mid (values data property)
      /\ In hi (values data property)
      /\ lo <= mid <= hi.
Proof.
  intros data property Hne.
  destruct (percentile_scale data property Hne)
    as (lo & mid & hi & Escale & Ecut & Eext).
  set (sorted := Js.sort (fun a b => a - b) (values data property)) in *.
  assert (Hperm : Permutation sorted (values data property)) by apply sort_perm.
  destruct (extent_nonempty sorted) as (lo' & hi' & Eext' & Hall & Hlo & Hhi).
  { intros E. rewrite E in Ecut. destruct (Z.to_nat _); discriminate. }
  rewrite Eext in Eext'. injection Eext' as <- <-.
  exists lo, mid, hi. split; [exact Escale|].
  assert (Hmid : In mid sorted) by (eapply nth_error_In, Ecut).
  repeat split.
  - apply Hall. eapply Permutation_in; [symmetry; exact Hperm | exact H].
  - apply Hall. eapply Permutation_in; [symmetry; exact Hperm | exact H].
  - eapply Permutation_in; eauto.
  - eapply Permutation_in; eauto.
  - eapply Permutation_in; eauto.
  - now apply Hall.
  - now apply Hall.
Qed.

Lemma percentile_breakpoints_witness :
  exists lo mid hi,
    createDivergingColorScale (basinsWith "average" [8; 2; 5; 9]) "average" None None
    = Ok {| D3.domain := [Fin lo; Fin mid; Fin hi];
            D3.range := [colorLow; colorMid; colorHigh] |}
    /\ (forall v, In v (values (basinsWith "average" [8; 2; 5; 9]) "average") ->
                  lo <= v <= hi)
    /\ In lo (values (basinsWith "average" [8; 2; 5; 9]) "average")
    /\ In mid (values (basinsWith "average" [8; 2; 5; 9]) "average")
    /\ In hi (values (basinsWith "average" [8; 2; 5; 9]) "average")
    /\ lo <= mid <= hi.
Proof.
  apply (percentile_breakpoints (basinsWith "average" [8; 2; 5; 9]) "average"%string).
  vm_compute. discriminate.
Defined.

(** The share of the values on each side of the percentile cutoff: at most
    three tenths of them are strictly below it, and more than three tenths
    are below it or equal to it. *)
Theorem percentile_cutoff_rank :
  forall data property lo mid hi,
    values data property <> [] ->
    createDivergingColorScale data property None None
    = Ok {| D3.domain := [Fin lo; Fin mid; Fin hi];
            D3.range := [colorLow; colorMid; colorHigh] |} ->
    let n := length (values data property) in
    (10 * count_if (fun v => Js.ltb v mid) (values data property) <= 3 * n)%nat
    /\ (3 * n < 10 * count_if (fun v => Qle_bool v mid) (values data property))%nat.
Proof.
  intros data property lo mid hi Hne Hscale n.
  destruct (percentile_scale data property Hne)
    as (lo' & mid' & hi' & Escale & Ecut & _).
  rewrite Escale in Hscale. injection Hscale as -> -> ->.
  set (sorted := Js.sort (fun a b => a - b) (values data property)) in *.
  assert (Hperm : Permutation sorted (values data property)) by apply sort_perm.
  pose proof (sorted_rank_lower sorted (sort_ascending _) _ _ Ecut) as Hlow.
  pose proof (sorted_rank_upper sorted (sort_ascending _) _ _ Ecut) as Hup.
  rewrite (count_if_perm _ _ _ Hperm) in Hlow.
  rewrite (count_if_perm _ _ _ Hperm) in Hup.
  fold n in Hlow, Hup.
  rewrite floor_three_tenths in Hlow, Hup.
  assert (Hk : (10 * (Z.of_nat n * 3 / 10) <= Z.of_nat n * 3
                < 10 * (Z.of_nat n * 3 / 10) + 10)%Z).
  { pose proof (Z.mul_div_le (Z.of_nat n * 3) 10 ltac:(lia)).
    pose proof (Z.mul_succ_div_gt (Z.of_nat n * 3) 10 ltac:(lia)).
    lia. }
  assert (Hnn : (0 <= Z.of_nat n * 3 / 10)%Z) by (apply Z.div_pos; lia).
  split; lia.
Qed.

Lemma percentile_cutoff_rank_witness :
  let data := basinsWith "average" [8; 2; 5; 9] in
  (10 * count_if (fun v => Js.ltb v 5) (values data "average") <= 3 * 4)%nat
  /\ (3 * 4 < 10 * count_if (fun v => Qle_bool v 5) (values data "average"))%nat.
Proof.
  intros data.
  apply (percentile_cutoff_rank data "average"%string 2 5 9).
  - vm_compute. discriminate.
  - reflexivity.
Defined.

(** ** The scales the map is drawn with *)

Lemma apply_three (a b c : num) (r0 r1 r2 : rgb) (x : Q) :
  Js.lt c a = false ->
  D3.apply {| D3.domain := [a; b; c]; D3.range := [r0; r1; r2] |} x
  = if Js.le b (Fin x)
    then D3.interpolateRgb r1 r2 (D3.normalize b c x)
    else D3.interpolateRgb r0 r1 (D3.normalize a b x).
Proof.
  intros E.
  unfold D3.apply, D3.polymap, D3.bisect.
  cbn [D3.domain D3.range length Nat.min Nat.ltb Nat.leb Nat.sub nth].
  rewrite E.
  cbn [D3.bisect_loop Nat.add Nat.div2 nth].
  destruct (Js.le b (Fin x)); reflexivity.
Qed.

Lemma apply_two (a b : num) (r0 r1 : rgb) (x : Q) :
  D3.apply {| D3.domain := [a; b]; D3.range := [r0; r1] |} x
  = if Js.lt b a
    then D3.interpolateRgb r1 r0 (D3.normalize b a x)
    else D3.interpolateRgb r0 r1 (D3.normalize a b x).
Proof. reflexivity. Qed.

Lemma extent_ordered (l : list Q) (mn mx : Q) :
  D3.extent l = Some (mn, mx) -> mn <= mx.
Proof.
  intros E. destruct l as [|x l]; [discriminate|].
  destruct (extent_nonempty (x :: l)) as (mn' & mx' & E' & Hall & Hmn & _);
    [discriminate|].
  rewrite E in E'. injection E' as <- <-.
  now apply Hall.
Qed.

(** The shape of every scale the diverging builder returns. *)
Lemma diverging_shape data property cutoffType cutoffValue scale :
  createDivergingColorScale data property cutoffType cutoffValue = Ok scale ->
  exists l c,
    Permutation l (values data property)
    /\ scale = {| D3.domain := [number (fst <$> D3.extent l); c;
                                number (snd <$> D3.extent l)];
                  D3.range := [colorLow; colorMid; colorHigh] |}.
Proof.
  unfold createDivergingColorScale. cbv zeta.
  repeat match goal with
         | |- context [bool_decide ?P] => destruct (bool_decide P)
         end; intros H; try discriminate; injection H as <-;
    eexists; eexists; (split; [|reflexivity]);
    try reflexivity; apply sort_perm.
Qed.

Lemma diverging_not_reversed (l : list Q) :
  Js.lt (number (snd <$> D3.extent l)) (number (fst <$> D3.extent l)) = false.
Proof.
  destruct (D3.extent l) as [[mn mx]|] eqn:E; simpl; [|reflexivity].
  apply ltb_ge. now apply (extent_ordered l).
Qed.

(** No point of a colour ramp of the program is the no-data gray: at every
    position, also outside the segment, some channel is on the wrong side
    of 211. *)
Lemma ramp_never_gray (t : num) :
  D3.interpolateRgb colorLow colorMid t <> colorNoData
  /\ D3.interpolateRgb colorMid colorHigh t <> colorNoData
  /\ D3.interpolateRgb colorLight colorDark t <> colorNoData
  /\ D3.interpolateRgb colorDark colorLight t <> colorNoData.
Proof.
  destruct t as [| |t|]; try (vm_compute; repeat split; discriminate).
  rewrite !interpolateRgb_lerp.
  repeat split; intros E.
  - destruct (Qlt_le_dec t 1) as [H|H].
    + apply (f_equal blue) in E. cbn [lerp blue colorLow colorMid colorNoData] in E.
      pose proof (lerp_channel_up 182 191 t 1 ltac:(lia) (Qlt_le_weak _ _ H)) as B.
      change (lerp_channel 182 191 1) with 191%Z in B. lia.
    + apply (f_equal red) in E. cbn [lerp red colorLow colorMid colorNoData] in E.
      pose proof (lerp_channel_up 44 255 1 t ltac:(lia) H) as B.
      change (lerp_channel 44 255 1) with 255%Z in B. lia.
  - destruct (Qlt_le_dec t 1) as [H|H].
    + apply (f_equal red) in E. cbn [lerp red colorHigh colorMid colorNoData] in E.
      pose proof (lerp_channel_down 255 215 t 1 ltac:(lia) (Qlt_le_weak _ _ H)) as B.
      change (lerp_channel 255 215 1) with 215%Z in B. lia.
    + apply (f_equal green) in E. cbn [lerp green colorHigh colorMid colorNoData] in E.
      pose proof (lerp_channel_down 255 25 1 t ltac:(lia) H) as B.
      change (lerp_channel 255 25 1) with 25%Z in B. lia.
  - destruct (Qlt_le_dec t (1 # 4)) as [H|H].
    + apply (f_equal red) in E. cbn [lerp red colorLight colorDark colorNoData] in E.
      pose proof (lerp_channel_down 254 165 t (1 # 4) ltac:(lia) (Qlt_le_weak _ _ H)) as B.
      change (lerp_channel 254 165 (1 # 4)) with 232%Z in B. lia.
    + apply (f_equal green) in E. cbn [lerp green colorLight colorDark colorNoData] in E.
      pose proof (lerp_channel_down 229 15 (1 # 4) t ltac:(lia) H) as B.
      change (lerp_channel 229 15 (1 # 4)) with 176%Z in B. lia.
  - destruct (Qlt_le_dec t (3 # 4)) as [H|H].
    + apply (f_equal green) in E. cbn [lerp green colorLight colorDark colorNoData] in E.
      pose proof (lerp_channel_up 15 229 t (3 # 4) ltac:(lia) (Qlt_le_weak _ _ H)) as B.
      change (lerp_channel 15 229 (3 # 4)) with 176%Z in B. lia.
    + apply (f_equal red) in E. cbn [lerp red colorLight colorDark colorNoData] in E.
      pose proof (lerp_channel_up 165 254 (3 # 4) t ltac:(lia) H) as B.
      change (lerp_channel 165 254 (3 # 4)) with 232%Z in B. lia.
Qed.

Lemma diverging_never_gray data property cutoffType cutoffValue scale x :
  createDivergingColorScale data property cutoffType cutoffValue = Ok scale ->
  D3.apply scale x <> colorNoData.
Proof.
  intros H. destruct (diverging_shape _ _ _ _ _ H) as (l & c & _ & ->).
  rewrite apply_three by apply diverging_not_reversed.
  destruct (Js.le c (Fin x)); apply ramp_never_gray.
Qed.

Lemma continuous_never_gray (mn mx : num) (x : Q) :
  D3.apply (createFixedContinuousColorScale mn mx) x <> colorNoData.
Proof.
  unfold createFixedContinuousColorScale. rewrite apply_two.
  destruct (Js.lt mx mn); apply ramp_never_gray.
Qed.

Lemma default_scale_ok (data : FeatureCollection) (property : string) :
  exists scale, createDivergingColorScale data property None None = Ok scale.
Proof.
  unfold createDivergingColorScale, default. cbv zeta.
  rewrite bool_decide_eq_true_2 by reflexivity. eexists; reflexivity.
Qed.

(** The cases of the effect that rebuilds the colour scale. *)
Lemma colorScaleEffect_cases :
  forall geojsonData selectedProperty selectedMonth monthlyGlobalMinMax,
    let propertyToView :=
      if bool_decide (selectedProperty = "monthly"%string)
      then selectedMonth else selectedProperty in
    exists outcome,
      colorScaleEffect geojsonData selectedProperty selectedMonth monthlyGlobalMinMax
      = Ok outcome
      /\ (outcome = None <-> geojsonData = None \/ propertyToView = EmptyString)
      /\ (forall scale isContinuous,
             outcome = Some (scale, isContinuous) ->
             (isContinuous = true
              <-> selectedProperty = "monthly"%string /\ monthlyGlobalMinMax <> None)
             /\ (isContinuous = true ->
                 exists mm, monthlyGlobalMinMax = Some mm
                            /\ scale = createFixedContinuousColorScale (min mm) (max mm))
             /\ (isContinuous = false ->
                 exists data, geojsonData = Some data
                              /\ createDivergingColorScale data propertyToView None None
                                 = Ok scale)).
Proof.
  intros geojsonData selectedProperty selectedMonth mm propertyToView.
  unfold colorScaleEffect. fold propertyToView.
  destruct geojsonData as [data|].
  2:{ exists None. repeat split; auto; discriminate. }
  destruct (truthy_str (Val propertyToView)) eqn:Et.
  2:{ exists None. split; [reflexivity|]. split; [|discriminate].
      split; [|reflexivity]. intros _. right.
      simpl in Et. apply negb_false_iff, bool_decide_eq_true in Et. exact Et. }
  assert (Hne : propertyToView <> EmptyString).
  { apply truthy_str_true in Et. destruct Et as (s & E & Hs). congruence. }
  assert (Hdiv : exists scale,
             createQuantileColorScale data propertyToView None None = Ok scale).
  { apply default_scale_ok. }
  destruct Hdiv as (dscale & Ed).
  destruct (bool_decide (selectedProperty = "monthly"%string)) eqn:Em.
  - apply bool_decide_eq_true in Em.
    destruct mm as [mm|].
    + eexists. split; [reflexivity|]. split.
      * split; [discriminate | intros [H|H]; [discriminate | contradiction]].
      * intros scale b E. injection E as <- <-.
        split; [split; [intros _; split; [exact Em | discriminate] | reflexivity]|].
        split; [intros _; exists mm; auto | discriminate].
    + rewrite Ed. eexists. split; [reflexivity|]. split.
      * split; [discriminate | intros [H|H]; [discriminate | contradiction]].
      * intros scale b E. injection E as <- <-.
        split; [split; [discriminate | intros [_ H]; congruence]|].
        split; [discriminate | intros _; exists data; auto].
  - apply bool_decide_eq_false in Em.
    destruct mm as [mm|]; cbv beta iota; rewrite Ed;
      (eexists; split; [reflexivity|]; split;
       [ split; [discriminate | intros [H|H]; [discriminate | contradiction]]
       | intros scale b E; injection E as <- <-;
         split; [split; [discriminate | intros [H _]; congruence]|];
         split; [discriminate | intros _; exists data; auto] ]).
Qed.

(** The effect that rebuilds the colour scale never throws.  It leaves the
    state alone exactly when there is no data or the property to view is
    the empty string; it yields the two-stop scale, flagged continuous,
    exactly in monthly mode once the monthly extrema are there, and the
    three-stop scale otherwise. *)
Theorem colorScaleEffect_outcome :
  forall geojsonData selectedProperty selectedMonth monthlyGlobalMinMax,
    let propertyToView :=
      if bool_decide (selectedProperty = "monthly"%string)
      then selectedMonth else selectedProperty in
    exists outcome,
      colorScaleEffect geojsonData selectedProperty selectedMonth monthlyGlobalMinMax
      = Ok outcome
      /\ (outcome = None <-> geojsonData = None \/ propertyToView = EmptyString)
      /\ (forall scale isContinuous,
             outcome = Some (scale, isContinuous) ->
             (isContinuous = true
              <-> selectedProperty = "monthly"%string /\ monthlyGlobalMinMax <> None)
             /\ (isContinuous = true ->
                 exists mm, monthlyGlobalMinMax = Some mm
                            /\ scale = createFixedContinuousColorScale (min mm) (max mm))
             /\ (isContinuous = false ->
                 exists data, geojsonData = Some data
                              /\ createDivergingColorScale data propertyToView None None
                                 = Ok scale)).
Proof. exact colorScaleEffect_cases. Qed.

Lemma colorScaleEffect_outcome_witness :
  exists data scale,
    Some {| features := [nile; amur] |} = Some data
    /\ createDivergingColorScale data "population" None None = Ok scale
    /\ D3.domain scale = [Fin 70000000; Fin 70000000; Fin 250000000].
Proof.
  destruct (colorScaleEffect_outcome (Some {| features := [nile; amur] |})
                                     "population" "jan" None)
    as (outcome & E & _ & H).
  vm_compute in E. injection E as <-.
  destruct (H _ false eq_refl) as (_ & _ & (data & Edata & Escale)); [reflexivity|].
  exists data. eexists. split; [exact Edata|]. split; [exact Escale|].
  reflexivity.
Defined.

(** With a scale that the effect has built, a polygon is filled with the
    no-data gray, at half opacity, exactly when the feature has no value for
    the property shown; a feature with a value gets the colour the scale
    gives that value, and the scale never gives the gray. *)
Theorem gray_only_without_data :
  forall geojsonData selectedProperty selectedMonth monthlyGlobalMinMax
         scale isContinuous,
    colorScaleEffect geojsonData selectedProperty selectedMonth monthlyGlobalMinMax
    = Ok (Some (scale, isContinuous)) ->
    (forall x, D3.apply scale x <> colorNoData)
    /\ forall property feature selectedMapArea showRivers,
        let style := geoJSONStyle scale property feature selectedMapArea showRivers in
        (fillColor style = colorNoData <-> present (prop feature property) = None)
        /\ (fillOpacity style = 1 # 2 <-> present (prop feature property) = None)
        /\ (forall v, prop feature property = Val v ->
                      fillColor style = D3.apply scale v
                      /\ fillOpacity style = 7 # 10).
Proof.
  intros geojsonData selectedProperty selectedMonth mm scale isContinuous E.
  assert (Hgray : forall x, D3.apply scale x <> colorNoData).
  { intros x.
    destruct (colorScaleEffect_cases geojsonData selectedProperty selectedMonth mm)
      as (outcome & E' & _ & H).
    rewrite E in E'. injection E' as <-.
    destruct (H scale isContinuous eq_refl) as (_ & Hc & Hd).
    destruct isContinuous.
    - destruct (Hc eq_refl) as (m & _ & ->). apply continuous_never_gray.
    - destruct (Hd eq_refl) as (data & _ & Hs).
      eapply diverging_never_gray; eauto. }
  split; [exact Hgray|].
  intros property feature sel showRivers style. subst style.
  unfold geoJSONStyle. cbn [fillColor fillOpacity].
  destruct (prop feature property) as [| |v] eqn:Ev; cbn [present].
  - repeat split; auto; discriminate.
  - repeat split; auto; discriminate.
  - split; [|split].
    + split; [|discriminate]. intros H. exfalso. eapply Hgray; eauto.
    + split; discriminate.
    + intros v' H. injection H as <-. split; reflexivity.
Qed.

Lemma gray_only_without_data_witness :
  exists scale,
    fillColor (geoJSONStyle scale "jul" nile (Val "NILE"%string) true) = colorNoData
    /\ fillColor (geoJSONStyle scale "jul" amur (Val "NILE"%string) true)
       = D3.apply scale 2
    /\ D3.apply scale 2 <> colorNoData.
Proof.
  exists (createFixedContinuousColorScale (Fin 0) (Fin 11)).
  destruct (gray_only_without_data
              (Some {| features := [nile; amur] |}) "monthly" "jul"
              (Some {| min := Fin 0; max := Fin 11 |})
              (createFixedContinuousColorScale (Fin 0) (Fin 11)) true eq_refl)
    as [Hgray Hstyle].
  split; [|split].
  - apply (proj1 (Hstyle "jul"%string nile (Val "NILE"%string) true)). reflexivity.
  - apply (proj2 (proj2 (Hstyle "jul"%string amur (Val "NILE"%string) true)) 2).
    reflexivity.
  - apply Hgray.
Defined.

(** ** Collections without values *)

Lemma values_nil (data : FeatureCollection) (property : string) :
  values data property = [] <->
  forall f, In f (features data) -> present (prop f property) = None.
Proof.
  split.
  - intros E f Hf. destruct (present (prop f property)) as [v|] eqn:Ev; [|reflexivity].
    assert (H : In v (values data property)).
    { apply values_In. exists f. split; [exact Hf | now apply present_Some]. }
    rewrite E in H. destruct H.
  - intros H. destruct (values data property) as [|v l] eqn:E; [reflexivity|].
    assert (Hv : In v (values data property)) by (rewrite E; now left).
    apply values_In in Hv. destruct Hv as (f & Hf & Hv).
    specialize (H f Hf). rewrite Hv in H. discriminate.
Qed.

Lemma ramp_NaN :
  D3.interpolateRgb colorLow colorMid NaN = D3.black
  /\ D3.interpolateRgb colorMid colorHigh NaN = D3.black
  /\ D3.interpolateRgb colorDark colorLight NaN = D3.black.
Proof. repeat split; reflexivity. Qed.

Lemma normalize_NaN_l (b : num) (x : Q) : D3.normalize NaN b x = NaN.
Proof. destruct b; reflexivity. Qed.

Lemma normalize_NaN_r (a : num) (x : Q) : D3.normalize a NaN x = NaN.
Proof. destruct a; reflexivity. Qed.

(** When no feature has the property, the builder still returns a scale
    under each of the three strategies; its outer breakpoints are [NaN] and
    it sends every input to rgb(0, 0, 0).  The map does not use it: every
    polygon gets the no-data fill. *)
Theorem scale_without_values :
  forall data property,
    (forall f, In f (features data) -> present (prop f property) = None) ->
    (forall cutoffType cutoffValue scale,
        createDivergingColorScale data property cutoffType cutoffValue = Ok scale ->
        nth_error (D3.domain scale) 0 = Some NaN
        /\ nth_error (D3.domain scale) 2 = Some NaN
        /\ forall x, D3.apply scale x = D3.black)
    /\ (forall scale selectedMapArea showRivers item style,
           In (item, style)
              (polygonStyles scale data property selectedMapArea showRivers) ->
           fillColor style = colorNoData /\ fillOpacity style = 1 # 2).
Proof.
  intros data property Hnone. split.
  - intros cutoffType cutoffValue scale H.
    destruct (diverging_shape _ _ _ _ _ H) as (l & c & Hperm & ->).
    assert (El : l = []).
    { apply Permutation_nil. rewrite Hperm.
      apply values_nil in Hnone. now rewrite Hnone. }
    subst l. cbn [D3.extent fold_left fmap option_fmap option_map number D3.domain nth_error].
    split; [reflexivity|]. split; [reflexivity|].
    intros x. rewrite apply_three by reflexivity.
    rewrite normalize_NaN_l, normalize_NaN_r.
    destruct (Js.le c (Fin x)); apply ramp_NaN.
  - intros scale sel showRivers item style Hin.
    unfold polygonStyles in Hin. apply in_map_iff in Hin.
    destruct Hin as (feature & E & Hf). injection E as -> <-.
    unfold geoJSONStyle. cbn [fillColor fillOpacity].
    rewrite (Hnone item Hf). split; reflexivity.
Qed.

Lemma scale_without_values_witness :
  D3.apply {| D3.domain := [NaN; Fin 5; NaN];
              D3.range := [colorLow; colorMid; colorHigh] |} 7 = D3.black.
Proof.
  refine (proj2 (proj2 (proj1 (scale_without_values
            {| features := [nile; amur] |} "rainfall"%string _)
            (Some "fixed"%string) (Some 5) _ _)) 7).
  - intros f [<-|[<-|[]]]; reflexivity.
  - reflexivity.
Defined.

Lemma allValues_nil_minmax (l : list Q) :
  (Js.min_all l = PosInf <-> l = []) /\ (Js.max_all l = NegInf <-> l = []).
Proof.
  destruct l as [|x l].
  - repeat split; reflexivity.
  - destruct (min_max_all (x :: l)) as (mn & mx & E1 & E2 & _); [discriminate|].
    rewrite E1, E2. repeat split; intros H; discriminate H.
Qed.

(** The monthly extrema are [Infinity] and [-Infinity] exactly when no
    feature has any monthly value, and they are finite with
    [min <= max] otherwise.  In the first case the scale the effect builds
    in monthly mode sends every input to rgb(0, 0, 0). *)
Theorem monthly_extrema_without_values :
  forall data,
    (allValues data = [] <->
     calculateMonthlyGlobalMinMax data = {| min := PosInf; max := NegInf |})
    /\ (allValues data <> [] ->
        exists mn mx,
          calculateMonthlyGlobalMinMax data = {| min := Fin mn; max := Fin mx |}
          /\ mn <= mx)
    /\ (allValues data = [] ->
        forall month,
          In month MONTHS ->
          exists scale,
            colorScaleEffect (Some data) "monthly" month
                             (Some (calculateMonthlyGlobalMinMax data))
            = Ok (Some (scale, true))
            /\ forall x, D3.apply scale x = D3.black).
Proof.
  intros data.
  assert (Hempty : allValues data = [] ->
                   calculateMonthlyGlobalMinMax data = {| min := PosInf; max := NegInf |}).
  { intros E. unfold calculateMonthlyGlobalMinMax. now rewrite E. }
  split; [|split].
  - split; [exact Hempty|].
    intros E. unfold calculateMonthlyGlobalMinMax in E.
    injection E as E1 _. apply (proj1 (allValues_nil_minmax _)). exact E1.
  - intros Hne.
    destruct (min_max_all _ Hne) as (mn & mx & E1 & E2 & Hall & Hmn & _).
    exists mn, mx. unfold calculateMonthlyGlobalMinMax. rewrite E1, E2.
    split; [reflexivity|]. now apply Hall.
  - intros E month Hm. rewrite (Hempty E).
    exists (createFixedContinuousColorScale PosInf NegInf). split.
    + unfold colorScaleEffect.
      rewrite bool_decide_eq_true_2 by reflexivity.
      assert (Et : truthy_str (Val month) = true).
      { apply truthy_str_true. exists month. split; [reflexivity|].
        intros ->. simpl in Hm. intuition discriminate. }
      rewrite Et. reflexivity.
    + intros x. reflexivity.
Qed.

Lemma monthly_extrema_without_values_witness :
  calculateMonthlyGlobalMinMax (basinsWith "population" [3; 4])
  = {| min := PosInf; max := NegInf |}
  /\ exists mn mx,
      calculateMonthlyGlobalMinMax {| features := [nile; amur] |}
      = {| min := Fin mn; max := Fin mx |} /\ mn <= mx.
Proof.
  split.
  - apply (proj1 (proj1 (monthly_extrema_without_values
                           (basinsWith "population" [3; 4])))).
    reflexivity.
  - apply (proj1 (proj2 (monthly_extrema_without_values
                           {| features := [nile; amur] |}))).
    vm_compute. discriminate.
Defined.

(** ** The legend *)

(** For every state the effect produces, the legend prints all the
    breakpoints of the scale, two or three, with none missing, and the
    colours of its gradient bar are the colours of the scale's range. *)
Theorem legend_matches_scale :
  forall geojsonData selectedProperty selectedMonth monthlyGlobalMinMax
         scale isContinuous,
    colorScaleEffect geojsonData selectedProperty selectedMonth monthlyGlobalMinMax
    = Ok (Some (scale, isContinuous)) ->
    labels (Legend scale isContinuous) = map Some (D3.domain scale)
    /\ map hex (gradient (Legend scale isContinuous)) = map Some (D3.range scale)
    /\ length (D3.domain scale) = (if isContinuous then 2 else 3)%nat.
Proof.
  intros geojsonData selectedProperty selectedMonth mm scale isContinuous E.
  destruct (colorScaleEffect_cases geojsonData selectedProperty selectedMonth mm)
    as (outcome & E' & _ & H).
  rewrite E in E'. injection E' as <-.
  destruct (H scale isContinuous eq_refl) as (_ & Hc & Hd).
  destruct isContinuous.
  - destruct (Hc eq_refl) as (m & _ & ->). repeat split; reflexivity.
  - destruct (Hd eq_refl) as (data & _ & Hs).
    destruct (diverging_shape _ _ _ _ _ Hs) as (l & c & _ & ->).
    repeat split; reflexivity.
Qed.

Lemma legend_matches_scale_witness :
  labels (Legend (createFixedContinuousColorScale (Fin 0) (Fin 11)) true)
  = [Some (Fin 0); Some (Fin 11)].
Proof.
  apply (proj1 (legend_matches_scale
                  (Some {| features := [nile; amur] |}) "monthly" "jul"
                  (Some {| min := Fin 0; max := Fin 11 |})
                  (createFixedContinuousColorScale (Fin 0) (Fin 11)) true eq_refl)).
Defined.

(** ** The order of the treemap nodes *)

Lemma withValue_insert (v : Q) (x : Node) (l : list Node) :
  withValue v (Js.insert (fun a b => value b - value a) x l)
  = withValue v (x :: l).
Proof.
  induction l as [|y l IH]; [reflexivity|].
  cbn [Js.insert].
  destruct (Qle_bool (value y - value x) 0) eqn:E; [reflexivity|].
  unfold withValue in *. cbn [List.filter] in *. rewrite IH.
  destruct (Qeq_bool (value x) v) eqn:Ex, (Qeq_bool (value y) v) eqn:Ey;
    try reflexivity.
  exfalso. apply Qeq_bool_iff in Ex. apply Qeq_bool_iff in Ey.
  apply Qle_bool_false in E. lra.
Qed.

Lemma withValue_sort (v : Q) (l : list Node) :
  withValue v (Js.sort (fun a b => value b - value a) l) = withValue v l.
Proof.
  induction l as [|x l IH]; [reflexivity|].
  cbn [Js.sort fold_right]. fold (Js.sort (fun a b => value b - value a) l).
  rewrite withValue_insert. unfold withValue in *. cbn [List.filter].
  now rewrite IH.
Qed.

Lemma omap_length_le {A B} (f : A -> option B) (l : list A) :
  (length (omap f l) <= length l)%nat.
Proof.
  induction l as [|x l IH]; [reflexivity|].
  change (omap f (x :: l))
    with (match f x with Some y => y :: omap f l | None => omap f l end).
  destruct (f x); cbn [length]; lia.
Qed.

(** Sorting neither drops nor repeats a node: the children of the
    hierarchy are the nodes pushed for the features that have both
    statistics, rearranged; nodes of equal value stay in the order of their
    features; there are at most as many nodes as features. *)
Theorem treemap_children_rearranged :
  forall data,
    Permutation (children (calculateWaterScarcity data)) (omap nodeOf data)
    /\ (forall v, withValue v (children (calculateWaterScarcity data))
                  = withValue v (omap nodeOf data))
    /\ (length (children (calculateWaterScarcity data)) <= length data)%nat.
Proof.
  intros data. unfold calculateWaterScarcity. cbn [children].
  rewrite forEach_nodeOf. cbn [app].
  split; [apply sort_perm|]. split.
  - intros v. apply withValue_sort.
  - rewrite sort_length. apply omap_length_le.
Qed.

Lemma or_zero_to_number (v : field Q) : or_zero v == to_number v.
Proof.
  destruct v as [| |q]; simpl; try reflexivity.
  destruct (Qeq_bool q 0) eqn:E; [|reflexivity].
  apply Qeq_bool_iff in E. now rewrite E.
Qed.

(** The two factors the tooltip of a treemap cell prints multiply to the
    value it prints, for every node of the hierarchy (a [null] statistic
    counts as [0] in both). *)
Theorem tooltip_factors_multiply :
  forall data n,
    In n (children (calculateWaterScarcity data)) ->
    value n == fst (tooltipFactors n) * snd (tooltipFactors n).
Proof.
  intros data n Hn. apply children_In in Hn.
  destruct Hn as (item & _ & En).
  destruct (nodeOf_Some _ _ En) as (_ & _ & _ & Hpop & Hws & _ & Hv).
  unfold tooltipFactors. cbn [fst snd].
  rewrite Hv, Hpop, Hws, !or_zero_to_number. reflexivity.
Qed.

Lemma tooltip_factors_multiply_witness :
  exists n,
    In n (children (calculateWaterScarcity [nile; amur]))
    /\ id n = Val "NILE"%string
    /\ value n == fst (tooltipFactors n) * snd (tooltipFactors n).
Proof.
  eexists. split; [left; reflexivity|]. split; [reflexivity|].
  apply (tooltip_factors_multiply [nile; amur]). left. reflexivity.
Defined.

(** ** The bar chart of a selected basin *)

Lemma findBasin_first (l1 l2 : list Feature) (item : Feature) (name : field string) :
  RIVERBASIN (properties item) = name ->
  (forall f, In f l1 -> RIVERBASIN (properties f) <> name) ->
  findBasin (l1 ++ item :: l2) name = Some item.
Proof.
  intros Hitem Hl1. unfold findBasin.
  induction l1 as [|f l1 IH]; cbn [app List.find].
  - rewrite (proj2 (strict_eq_true _ _) Hitem). reflexivity.
  - rewrite (proj2 (strict_eq_false _ _) (Hl1 f (or_introl eq_refl))).
    apply IH. intros g Hg. apply Hl1. now right.
Qed.

Lemma or_zero_value (v : Q) : or_zero (Val v) == v.
Proof. apply (or_zero_to_number (Val v)). Qed.

(** A selection that names a feature is resolved to the first feature of
    that name, whatever comes after it (a feature named AMUR included); the
    label carries the selected name; and the bar of each month the feature
    has a value for has that value. *)
Theorem bar_chart_first_match :
  forall before item after name,
    name <> EmptyString ->
    RIVERBASIN (properties item) = Val name ->
    (forall f, In f before -> RIVERBASIN (properties f) <> Val name) ->
    BarChart (before ++ item :: after) (Val name)
    = Chart item ("Monthly Water Shortage for " +:+ name) (monthlyData item)
    /\ forall i month v,
        nth_error MONTHS i = Some month ->
        prop item month = Val v ->
        exists bar, nth_error (monthlyData item) i = Some bar /\ bar == v.
Proof.
  intros l1 item l2 name Hname Hitem Hl1. split.
  - unfold BarChart.
    rewrite (proj2 (truthy_str_true (Val name))) by (exists name; auto).
    cbn [negb]. rewrite (findBasin_first l1 l2 item (Val name) Hitem Hl1).
    reflexivity.
  - intros i month v Hi Hv.
    exists (or_zero (prop item month)). split.
    + now apply monthlyData_nth.
    + rewrite Hv. apply or_zero_value.
Qed.

Lemma bar_chart_first_match_witness :
  BarChart ([amur] ++ nile :: [amur]) (Val "NILE"%string)
  = Chart nile "Monthly Water Shortage for NILE" (monthlyData nile)
  /\ exists bar, nth_error (monthlyData nile) 5 = Some bar /\ bar == 11.
Proof.
  destruct (bar_chart_first_match [amur] nile [amur] "NILE"%string)
    as [Hchart Hbars].
  - discriminate.
  - reflexivity.
  - intros f [<-|[]]. discriminate.
  - split; [exact Hchart|].
    apply (Hbars 5%nat "jun"%string 11); reflexivity.
Defined.

(** ** The selection across the views *)

Lemma runEvents_last (events : list Event) (e : Event) :
  runEvents (events ++ [e]) = handleEvent initialSelection e.
Proof.
  unfold runEvents. rewrite fold_left_app. cbn [fold_left].
  destruct e; reflexivity.
Qed.

Lemma weight_selected (scale : D3.Scale) (property : string) (f : Feature)
      (selectedMapArea : field string) (showRivers : bool) :
  weight (geoJSONStyle scale property f selectedMapArea showRivers) = 5%Z
  <-> RIVERBASIN (properties f) = selectedMapArea.
Proof.
  unfold geoJSONStyle. cbn [weight].
  rewrite <- strict_eq_true.
  destruct (strict_eq (RIVERBASIN (properties f)) selectedMapArea);
    split; intros H; try reflexivity; discriminate.
Qed.

Lemma resolves_named (data : list Feature) (name : string) :
  name <> EmptyString ->
  (exists f, In f data /\ RIVERBASIN (properties f) = Val name) ->
  exists shown,
    BarChart data (Val name)
    = Chart shown ("Monthly Water Shortage for " +:+ name) (monthlyData shown)
    /\ In shown data /\ RIVERBASIN (properties shown) = Val name.
Proof.
  intros Hname (f & Hf & Hn).
  destruct (findBasin data (Val name)) as [shown|] eqn:E.
  - exists shown. destruct (findBasin_Some _ _ _ E) as [Hin Hshown].
    split; [|split; assumption].
    unfold BarChart.
    rewrite (proj2 (truthy_str_true (Val name))) by (exists name; auto).
    cbn [negb]. rewrite E. reflexivity.
  - exfalso. apply (proj1 (findBasin_None _ _) E f Hf Hn).
Qed.

(** The selection is whatever the last event wrote, whatever came before.
    After the pointer leaves a polygon the bar chart shows its prompt and no
    named polygon is highlighted.  After the pointer enters the polygon of a
    named feature of the collection, or a treemap cell of the hierarchy
    built from the collection, the bar chart shows a feature of that very
    name, without fallback, and the map highlights exactly the polygons of
    that name. *)
Theorem selection_across_views :
  forall (data : list Feature) (events : list Event),
    (forall e, runEvents (events ++ [e]) = runEvents [e])
    /\ (BarChart data (runEvents (events ++ [MapMouseOut])) = SelectPrompt
        /\ forall scale property showRivers f name,
            RIVERBASIN (properties f) = Val name ->
            weight (geoJSONStyle scale property f
                                 (runEvents (events ++ [MapMouseOut])) showRivers)
            = 2%Z)
    /\ (forall e name,
           name <> EmptyString ->
           (exists f, e = MapMouseOver f /\ In f data
                      /\ RIVERBASIN (properties f) = Val name)
           \/ (exists n, e = TreeMapMouseEnter n
                         /\ In n (children (calculateWaterScarcity data))
                         /\ id n = Val name) ->
           let selectedBasin := runEvents (events ++ [e]) in
           selectedBasin = Val name
           /\ (exists shown,
                  BarChart data selectedBasin
                  = Chart shown ("Monthly Water Shortage for " +:+ name)
                          (monthlyData shown)
                  /\ In shown data
                  /\ RIVERBASIN (properties shown) = Val name)
           /\ (forall scale property showRivers g,
                  weight (geoJSONStyle scale property g selectedBasin showRivers) = 5%Z
                  <-> RIVERBASIN (properties g) = Val name)).
Proof.
  intros data events. split; [|split].
  - intros e. rewrite runEvents_last. reflexivity.
  - rewrite runEvents_last. cbn [handleEvent]. split; [reflexivity|].
    intros scale property showRivers f name Hf.
    unfold geoJSONStyle. cbn [weight]. rewrite Hf. reflexivity.
  - intros e name Hname He selectedBasin. subst selectedBasin.
    rewrite runEvents_last.
    assert (Hsel : handleEvent initialSelection e = Val name
                   /\ exists f, In f data /\ RIVERBASIN (properties f) = Val name).
    { destruct He as [(f & -> & Hf & Hn) | (n & -> & Hn & Hid)].
      - split; [exact Hn | eauto].
      - split; [exact Hid|].
        apply children_In in Hn. destruct Hn as (item & Hitem & En).
        destruct (nodeOf_Some _ _ En) as (_ & _ & Hid' & _).
        exists item. split; [exact Hitem | congruence]. }
    destruct Hsel as [-> Hex].
    split; [reflexivity|]. split.
    + now apply resolves_named.
    + intros scale property showRivers g. apply weight_selected.
Qed.

Lemma selection_across_views_witness :
  runEvents ([MapMouseOver nile; MapMouseOut] ++ [MapMouseOver amur])
  = Val "AMUR"%string
  /\ exists shown,
      BarChart [nile; amur]
               (runEvents ([MapMouseOver nile; MapMouseOut] ++ [MapMouseOver amur]))
      = Chart shown "Monthly Water Shortage for AMUR" (monthlyData shown)
      /\ In shown [nile; amur]
      /\ RIVERBASIN (properties shown) = Val "AMUR"%string.
Proof.
  destruct (proj2 (proj2 (selection_across_views
                            [nile; amur] [MapMouseOver nile; MapMouseOut]))
                  (MapMouseOver amur) "AMUR"%string) as (Hsel & Hchart & _).
  - discriminate.
  - left. exists amur. split; [reflexivity|]. split; [|reflexivity].
    right. left. reflexivity.
  - split; [exact Hsel | exact Hchart].
Defined.

(** ** The month slider *)

Lemma indexOf_range (a : list string) (x : string) :
  (-1 <= JsArray.indexOf a x < Z.of_nat (length a))%Z.
Proof.
  induction a as [|y a IH]; cbn [JsArray.indexOf length]; [lia|].
  destruct (bool_decide (y = x)); [lia|].
  destruct (Z.ltb_spec (JsArray.indexOf a x) 0); lia.
Qed.

Lemma indexOf_absent (a : list string) (x : string) :
  JsArray.indexOf a x = (-1)%Z <-> ~ In x a.
Proof.
  induction a as [|y a IH]; cbn [JsArray.indexOf].
  - split; [intros _ [] | reflexivity].
  - destruct (bool_decide_reflect (y = x)) as [E|E].
    + split; [discriminate | intros H; exfalso; apply H; now left].
    + pose proof (indexOf_range a x) as R.
      destruct (Z.ltb_spec (JsArray.indexOf a x) 0) as [L|L].
      * assert (Ei : JsArray.indexOf a x = (-1)%Z) by lia.
        split; [|reflexivity]. intros _ [H|H]; [contradiction|].
        now apply IH in Ei.
      * split; [lia|]. intros H. exfalso.
        assert (Ei : JsArray.indexOf a x = (-1)%Z)
          by (apply IH; intros Hin; apply H; now right).
        lia.
Qed.

Lemma indexOf_found (a : list string) (x : string) :
  In x a -> Js.index a (JsArray.indexOf a x) = Some x.
Proof.
  induction a as [|y a IH]; intros Hin; [destruct Hin|].
  cbn [JsArray.indexOf].
  destruct (bool_decide_reflect (y = x)) as [E|E].
  - subst. reflexivity.
  - destruct Hin as [H|H]; [contradiction|].
    specialize (IH H).
    pose proof (indexOf_range a x) as R.
    destruct (Z.ltb_spec (JsArray.indexOf a x) 0) as [L|L].
    + exfalso. assert (Ei : JsArray.indexOf a x = (-1)%Z) by lia.
      now apply indexOf_absent in Ei.
    + unfold Js.index in *.
      destruct (Z.ltb_spec (JsArray.indexOf a x) 0); [lia|].
      destruct (Z.ltb_spec (JsArray.indexOf a x + 1) 0); [lia|].
      replace (Z.to_nat (JsArray.indexOf a x + 1))
        with (S (Z.to_nat (JsArray.indexOf a x))) by lia.
      exact IH.
Qed.

Lemma indexOf_nth (a : list string) (i : nat) (x : string) :
  List.NoDup a -> nth_error a i = Some x -> JsArray.indexOf a x = Z.of_nat i.
Proof.
  intros Hnd. revert i. induction Hnd as [|y a Hy Hnd IH]; intros i Hi.
  - destruct i; discriminate.
  - cbn [JsArray.indexOf]. destruct i as [|i]; cbn [nth_error] in Hi.
    + injection Hi as ->. rewrite bool_decide_eq_true_2 by reflexivity.
      reflexivity.
    + assert (Hin : In x a) by (eapply nth_error_In; eauto).
      rewrite bool_decide_eq_false_2 by (intros ->; contradiction).
      rewrite (IH i Hi).
      destruct (Z.ltb_spec (Z.of_nat i) 0); lia.
Qed.

Lemma MONTHS_NoDup : List.NoDup MONTHS.
Proof.
  unfold MONTHS.
  repeat (constructor; [simpl; intuition discriminate|]). constructor.
Qed.

(** The slider and the selected month determine each other: the position
    of a month of the list, read back, is that month; each position from 0
    to 11 holds a month whose position it is.  A string that is no month has
    position -1, and a position outside 0 .. 11 holds nothing. *)
Theorem month_slider_round_trip :
  (forall month, In month MONTHS ->
                 onSliderChange (sliderValue month) = Some month)
  /\ (forall v, (0 <= v <= 11)%Z ->
                exists month, onSliderChange v = Some month
                              /\ In month MONTHS /\ sliderValue month = v)
  /\ (forall s, ~ In s MONTHS ->
                sliderValue s = (-1)%Z /\ onSliderChange (sliderValue s) = None)
  /\ (forall v, (v < 0 \/ 11 < v)%Z -> onSliderChange v = None).
Proof.
  unfold sliderValue, onSliderChange.
  split; [|split; [|split]].
  - intros month Hin. now apply indexOf_found.
  - intros v Hv.
    assert (Hlen : (Z.to_nat v < length MONTHS)%nat) by (simpl; lia).
    destruct (nth_error MONTHS (Z.to_nat v)) as [month|] eqn:E.
    2:{ apply nth_error_None in E. lia. }
    exists month. split; [|split].
    + unfold Js.index. destruct (Z.ltb_spec v 0); [lia | exact E].
    + eapply nth_error_In; eauto.
    + rewrite (indexOf_nth MONTHS _ _ MONTHS_NoDup E). lia.
  - intros s Hs. apply indexOf_absent in Hs. rewrite Hs. split; reflexivity.
  - intros v Hv. unfold Js.index.
    destruct (Z.ltb_spec v 0); [reflexivity|].
    apply nth_error_None. simpl. lia.
Qed.

Lemma month_slider_round_trip_witness :
  onSliderChange (sliderValue "sep") = Some "sep"%string
  /\ exists month, onSliderChange 6 = Some month
                   /\ In month MONTHS /\ sliderValue month = 6%Z.
Proof.
  split.
  - apply (proj1 month_slider_round_trip). simpl. tauto.
  - apply (proj1 (proj2 month_slider_round_trip)). lia.
Defined.

(** ** The popup of a polygon *)

(** The popup prints 'No Data' when the feature lacks the value and also
    when the value is zero; otherwise it prints the feature's value.  The
    fill does not follow it for a zero: a feature whose value is zero is
    filled with the colour the scale gives to zero, at the opacity of a
    polygon with data. *)
Theorem popup_no_data :
  forall feature property,
    (propertyValue feature property = None
     <-> present (prop feature property) = None
         \/ exists v, prop feature property = Val v /\ v == 0)
    /\ (forall v, propertyValue feature property = Some v ->
                  prop feature property = Val v /\ ~ v == 0)
    /\ (forall v scale selectedMapArea showRivers,
           prop feature property = Val v -> v == 0 ->
           let style := geoJSONStyle scale property feature selectedMapArea showRivers in
           propertyValue feature property = None
           /\ fillColor style = D3.apply scale v
           /\ fillOpacity style = 7 # 10).
Proof.
  intros feature property. unfold propertyValue, geoJSONStyle.
  destruct (prop feature property) as [| |q] eqn:E; cbn [present fillColor fillOpacity].
  - split; [|split]; try discriminate. split; auto.
  - split; [|split]; try discriminate. split; auto.
  - destruct (Qeq_bool q 0) eqn:Eq.
    + apply Qeq_bool_iff in Eq. split; [|split].
      * split; [intros _; right; eauto | reflexivity].
      * discriminate.
      * intros v scale sel sr Hv Hz. injection Hv as <-. auto.
    + apply Qeq_bool_false in Eq. split; [|split].
      * split; [discriminate|]. intros [H|(v & Hv & Hz)]; [discriminate|].
        injection Hv as <-. contradiction.
      * intros v Hv. injection Hv as <-. auto.
      * intros v scale sel sr Hv Hz. injection Hv as <-. contradiction.
Qed.

Lemma popup_no_data_witness :
  propertyValue amur "jan" = None
  /\ fillOpacity (geoJSONStyle (createFixedContinuousColorScale (Fin 0) (Fin 11))
                               "jan" amur Null true) = 7 # 10
  /\ prop nile "jan" = Val 4.
Proof.
  destruct (popup_no_data amur "jan"%string) as (_ & _ & Hzero).
  destruct (popup_no_data nile "jan"%string) as (_ & Hsome & _).
  destruct (Hzero 0 (createFixedContinuousColorScale (Fin 0) (Fin 11)) Null true)
    as (Hnone & _ & Hop); [reflexivity | reflexivity |].
  split; [exact Hnone|]. split; [exact Hop|].
  apply (Hsome 4). reflexivity.
Defined.

(** ** The labels of the treemap cells *)

Lemma length_append (s1 s2 : string) :
  String.length (s1 +:+ s2) = (String.length s1 + String.length s2)%nat.
Proof. induction s1 as [|c s1 IH]; simpl; [reflexivity | now rewrite IH]. Qed.

Lemma substring_prefix (n : nat) (s : string) :
  (n <= String.length s)%nat ->
  String.length (substring 0 n s) = n
  /\ s = substring 0 n s +:+ substring n (String.length s - n) s.
Proof.
  revert s. induction n as [|n IH]; intros s Hn.
  - split; [destruct s; reflexivity|].
    rewrite Nat.sub_0_r.
    assert (E : forall t, substring 0 (String.length t) t = t).
    { induction t as [|c t IHt]; simpl; [reflexivity | now rewrite IHt]. }
    rewrite E. destruct s; reflexivity.
  - destruct s as [|c s]; simpl in Hn; [lia|].
    destruct (IH s ltac:(lia)) as [H1 H2].
    cbn [substring String.length Nat.sub]. split; [now rewrite H1|].
    change (String c s
            = String c (substring 0 n s +:+ substring n (String.length s - n) s)).
    now rewrite <- H2.
Qed.

(** A name of at most ten characters is its own label; a longer one is cut
    to its first ten characters followed by three dots, so that no label is
    longer than thirteen characters.  A missing name stays as it is. *)
Theorem treemap_label_truncation :
  forall s,
    ((String.length s <= 10)%nat -> label (Val s) = Val s)
    /\ ((10 < String.length s)%nat ->
        label (Val s) = Val (substring 0 10 s +:+ "...")
        /\ exists rest, s = substring 0 10 s +:+ rest
                        /\ String.length rest = (String.length s - 10)%nat)
    /\ (exists shown, label (Val s) = Val shown
                      /\ (String.length shown <= 13)%nat
                      /\ (String.length shown <= String.length s + 3)%nat)
    /\ label Null = Null /\ label Undefined = Undefined.
Proof.
  intros s.
  assert (Hshort : (String.length s <= 10)%nat -> label (Val s) = Val s).
  { intros H. unfold label.
    destruct (Nat.ltb_spec 10 (String.length s)); [lia|].
    now rewrite andb_false_r. }
  assert (Hlong : (10 < String.length s)%nat ->
                  label (Val s) = Val (substring 0 10 s +:+ "...")).
  { intros H. unfold label.
    destruct (Nat.ltb_spec 10 (String.length s)); [|lia].
    assert (Et : truthy_str (Val s) = true).
    { apply truthy_str_true. exists s. split; [reflexivity|].
      intros ->. simpl in H. lia. }
    now rewrite Et. }
  split; [exact Hshort|]. split; [|split; [|split; reflexivity]].
  - intros H. split; [now apply Hlong|].
    destruct (substring_prefix 10 s ltac:(lia)) as [H1 H2].
    exists (substring 10 (String.length s - 10) s). split; [exact H2|].
    apply (f_equal String.length) in H2. rewrite length_append, H1 in H2. lia.
  - destruct (Nat.le_gt_cases (String.length s) 10) as [H|H].
    + exists s. split; [now apply Hshort | lia].
    + exists (substring 0 10 s +:+ "..."). split; [now apply Hlong|].
      destruct (substring_prefix 10 s ltac:(lia)) as [H1 _].
      rewrite length_append, H1. simpl. lia.
Qed.

Lemma treemap_label_truncation_witness :
  label (Val "AMUR") = Val "AMUR"%string
  /\ label (Val "BRAHMAPUTRA-GANGES") = Val "BRAHMAPUTR..."%string.
Proof.
  split.
  - apply (proj1 (treemap_label_truncation "AMUR")). simpl. lia.
  - apply (proj1 (proj2 (treemap_label_truncation "BRAHMAPUTRA-GANGES"))).
    simpl. lia.
Defined.

(** ** The page *)

Lemma reachableLoading_invariant (geojsonData : option FeatureCollection) (loading : bool) :
  reachableLoading geojsonData loading ->
  (geojsonData = None -> loading = true) /\ (loading = false -> geojsonData <> None).
Proof.
  induction 1 as [|loading _ [IH1 IH2]].
  - split; [reflexivity | discriminate].
  - destruct geojsonData as [d|]; cbn [loadingEffect].
    + split; discriminate.
    + split; [auto|]. intros H. rewrite IH1 in H by reflexivity. discriminate.
Qed.

(** In no state that the page can reach does a render read
    [geojsonData.features] of a missing collection: when the server could
    not load the file the page stays on the loading screen for good, and
    when it could, the first pass of the effect ends the loading state and
    the three views get the collection. *)
Theorem home_render_safe :
  forall geojsonData loading,
    reachableLoading geojsonData loading ->
    (exists view, renderHome geojsonData loading = Ok view)
    /\ (geojsonData = None ->
        loading = true /\ renderHome geojsonData loading = Ok LoadingScreen)
    /\ (forall d, geojsonData = Some d ->
                  loadingEffect geojsonData loading = false
                  /\ renderHome geojsonData (loadingEffect geojsonData loading)
                     = Ok (Dashboard (Some d) (features d) (Some d))).
Proof.
  intros geojsonData loading Hreach.
  destruct (reachableLoading_invariant _ _ Hreach) as [Hnone Hdata].
  split; [|split].
  - unfold renderHome. destruct loading; [eexists; reflexivity|].
    destruct geojsonData as [d|]; [eexists; reflexivity|].
    exfalso. now apply Hdata.
  - intros ->. rewrite Hnone by reflexivity. split; reflexivity.
  - intros d ->. split; reflexivity.
Qed.

Lemma home_render_safe_witness :
  renderHome None (loadingEffect None (loadingEffect None true)) = Ok LoadingScreen
  /\ renderHome (Some {| features := [nile; amur] |})
                (loadingEffect (Some {| features := [nile; amur] |}) true)
     = Ok (Dashboard (Some {| features := [nile; amur] |}) [nile; amur]
                     (Some {| features := [nile; amur] |})).
Proof.
  split.
  - apply (proj1 (proj2 (home_render_safe None _
            (reach_effect None _ (reach_effect None _ (reach_initial None)))))).
    reflexivity.
  - apply (proj2 (proj2 (home_render_safe _ true
            (reach_initial (Some {| features := [nile; amur] |})))) _ eq_refl).
Defined.

(** ** A polygon without a name *)

(** Hovering a polygon whose feature has no name, a [null] name or an
    empty name: the popup calls it 'Unknown Basin', and the selection it
    writes makes the bar chart show its prompt, as with no selection.
    Hovering a polygon with a proper name: the popup shows the name and the
    selection is that name. *)
Theorem hover_unnamed_basin :
  forall (data : list Feature) (events : list Event) (feature : Feature),
    (truthy_str (RIVERBASIN (properties feature)) = false ->
     basinName feature = "Unknown Basin"%string
     /\ BarChart data (runEvents (events ++ [MapMouseOver feature])) = SelectPrompt)
    /\ (forall name,
           RIVERBASIN (properties feature) = Val name -> name <> EmptyString ->
           basinName feature = name
           /\ runEvents (events ++ [MapMouseOver feature]) = Val name
           /\ BarChart data (runEvents (events ++ [MapMouseOver feature]))
              <> SelectPrompt).
Proof.
  intros data events feature. rewrite runEvents_last. cbn [handleEvent].
  split.
  - intros E. unfold basinName, BarChart. rewrite E. split; reflexivity.
  - intros name Hn Hname.
    assert (E : truthy_str (Val name) = true)
      by (apply truthy_str_true; exists name; auto).
    unfold basinName, BarChart. rewrite Hn, E. cbn [negb to_string].
    split; [reflexivity|]. split; [reflexivity|].
    destruct (findBasin data (Val name)); [discriminate|].
    destruct (findBasin data (Val "AMUR"%string)); discriminate.
Qed.

Lemma hover_unnamed_basin_witness :
  basinName {| properties := {| RIVERBASIN := Null; CONTINENT := Val "Asia"%string;
                                stats := ∅ |} |} = "Unknown Basin"%string
  /\ basinName nile = "NILE"%string.
Proof.
  split.
  - apply (proj1 (hover_unnamed_basin [nile] [] _)). reflexivity.
  - apply (proj2 (hover_unnamed_basin [nile] [] nile) "NILE"%string);
      [reflexivity | discriminate].
Defined.

(** ** The fraction of the percentile cutoff and the fixed cutoff *)

Lemma percentile_scale_general (data : FeatureCollection) (property : string) (p : Q) :
  let sorted := Js.sort (fun a b => a - b) (values data property) in
  createDivergingColorScale data property (Some "percentile"%string) (Some p)
  = Ok {| D3.domain :=
            [number (fst <$> D3.extent sorted);
             number (Js.index sorted
                       (Js.floor (inject_Z (Z.of_nat (length (values data property))) * p)));
             number (snd <$> D3.extent sorted)];
          D3.range := [colorLow; colorMid; colorHigh] |}.
Proof.
  intros sorted. subst sorted.
  unfold createDivergingColorScale, default. cbv zeta.
  rewrite bool_decide_eq_true_2 by reflexivity.
  rewrite sort_length. reflexivity.
Qed.

Lemma floor_fraction_bounds (n : Z) (p : Q) :
  (0 < n)%Z ->
  (0 <= p -> p < 1 -> (0 <= Js.floor (inject_Z n * p) < n)%Z)
  /\ (p < 0 -> (Js.floor (inject_Z n * p) < 0)%Z)
  /\ (1 <= p -> (n <= Js.floor (inject_Z n * p))%Z).
Proof.
  intros Hn. unfold Js.floor.
  assert (Hq : 0 < inject_Z n) by (change 0 with (inject_Z 0); now rewrite <- Zlt_Qlt).
  pose proof (Qfloor_le (inject_Z n * p)) as Hle.
  split; [|split].
  - intros H0 H1. split.
    + change 0%Z with (Qfloor 0). apply Qfloor_resp_le. nra.
    + rewrite Zlt_Qlt. eapply Qle_lt_trans; [exact Hle|]. nra.
  - intros H. rewrite Zlt_Qlt. eapply Qle_lt_trans; [exact Hle|].
    change (inject_Z 0) with 0. nra.
  - intros H. rewrite <- (Qfloor_Z n) at 1. apply Qfloor_resp_le. nra.
Qed.

(** The fraction of the percentile strategy must lie in [0, 1): then the
    cutoff is one of the values, between the least and the greatest.  With a
    negative fraction, or a fraction of 1 or more, the index falls outside
    the array and the cutoff breakpoint is [NaN]. *)
Theorem percentile_fraction_range :
  forall data property p,
    values data property <> [] ->
    (0 <= p -> p < 1 ->
     exists lo mid hi,
       createDivergingColorScale data property (Some "percentile"%string) (Some p)
       = Ok {| D3.domain := [Fin lo; Fin mid; Fin hi];
               D3.range := [colorLow; colorMid; colorHigh] |}
       /\ In mid (values data property) /\ lo <= mid <= hi)
    /\ (p < 0 \/ 1 <= p ->
        exists lo hi,
          createDivergingColorScale data property (Some "percentile"%string) (Some p)
          = Ok {| D3.domain := [Fin lo; NaN; Fin hi];
                  D3.range := [colorLow; colorMid; colorHigh] |}).
Proof.
  intros data property p Hne.
  rewrite percentile_scale_general.
  set (sorted := Js.sort (fun a b => a - b) (values data property)).
  assert (Hlen : length sorted = length (values data property)) by apply sort_length.
  assert (Hpos : (0 < Z.of_nat (length (values data property)))%Z).
  { destruct (values data property); [congruence | simpl; lia]. }
  destruct (extent_nonempty sorted) as (lo & hi & Eext & Hall & _).
  { intros E. rewrite E in Hlen. simpl in Hlen. lia. }
  rewrite Eext. cbn [fmap option_fmap option_map number fst snd].
  destruct (floor_fraction_bounds _ p Hpos) as (Hin & Hneg & Hbig).
  split.
  - intros H0 H1. specialize (Hin H0 H1).
    unfold Js.index.
    destruct (Z.ltb_spec (Js.floor (inject_Z (Z.of_nat (length (values data property))) * p)) 0);
      [lia|].
    destruct (nth_error sorted _) as [mid|] eqn:E.
    2:{ apply nth_error_None in E. lia. }
    exists lo, mid, hi. split; [reflexivity|].
    assert (Hmid : In mid sorted) by (eapply nth_error_In; eauto).
    split; [|now apply Hall].
    eapply Permutation_in; [apply sort_perm | exact Hmid].
  - intros Hp. exists lo, hi.
    assert (E : Js.index sorted
                  (Js.floor (inject_Z (Z.of_nat (length (values data property))) * p))
                = None).
    { unfold Js.index. destruct Hp as [Hp|Hp].
      - specialize (Hneg Hp).
        destruct (Z.ltb_spec (Js.floor (inject_Z (Z.of_nat (length (values data property))) * p)) 0);
          [reflexivity | lia].
      - specialize (Hbig Hp).
        destruct (Z.ltb_spec (Js.floor (inject_Z (Z.of_nat (length (values data property))) * p)) 0);
          [reflexivity|].
        apply nth_error_None. lia. }
    rewrite E. reflexivity.
Qed.

Lemma percentile_fraction_range_witness :
  (exists lo mid hi,
      createDivergingColorScale (basinsWith "average" [8; 2; 5; 9]) "average"
                                (Some "percentile"%string) (Some (1 # 2))
      = Ok {| D3.domain := [Fin lo; Fin mid; Fin hi];
              D3.range := [colorLow; colorMid; colorHigh] |}
      /\ In mid (values (basinsWith "average" [8; 2; 5; 9]) "average")
      /\ lo <= mid <= hi)
  /\ exists lo hi,
      createDivergingColorScale (basinsWith "average" [8; 2; 5; 9]) "average"
                                (Some "percentile"%string) (Some 1)
      = Ok {| D3.domain := [Fin lo; NaN; Fin hi];
              D3.range := [colorLow; colorMid; colorHigh] |}.
Proof.
  assert (Hne : values (basinsWith "average" [8; 2; 5; 9]) "average" <> [])
    by (vm_compute; discriminate).
  split.
  - apply (proj1 (percentile_fraction_range _ "average"%string (1 # 2) Hne));
      [discriminate | reflexivity].
  - apply (proj2 (percentile_fraction_range _ "average"%string 1 Hne)).
    right. discriminate.
Defined.

(** On the fixed branch the cutoff is the value passed, 0.3 when none is
    passed, whatever the data are, so it need not lie between the outer
    breakpoints; these are the least and greatest value of the set. *)
Theorem fixed_breakpoints :
  forall data property cutoffValue,
    values data property <> [] ->
    exists lo hi,
      createDivergingColorScale data property (Some "fixed"%string) cutoffValue
      = Ok {| D3.domain := [Fin lo; Fin (default (3 # 10) cutoffValue); Fin hi];
              D3.range := [colorLow; colorMid; colorHigh] |}
      /\ (forall v, In v (values data property) -> lo <= v <= hi)
      /\ In lo (values data property) /\ In hi (values data property).
Proof.
  intros data property cutoffValue Hne.
  destruct (extent_nonempty (values data property) Hne)
    as (lo & hi & Eext & Hall & Hlo & Hhi).
  exists lo, hi. split; [|auto].
  unfold createDivergingColorScale. cbv zeta.
  change (default "percentile"%string (Some "fixed"%string)) with "fixed"%string.
  rewrite !bool_decide_eq_false_2 by discriminate.
  rewrite bool_decide_eq_true_2 by reflexivity.
  rewrite Eext. reflexivity.
Qed.

Lemma fixed_breakpoints_witness :
  exists lo hi,
    createDivergingColorScale (basinsWith "average" [8; 2; 5; 9]) "average"
                              (Some "fixed"%string) (Some 100)
    = Ok {| D3.domain := [Fin lo; Fin (default (3 # 10) (Some 100)); Fin hi];
            D3.range := [colorLow; colorMid; colorHigh] |}
    /\ (forall v, In v (values (basinsWith "average" [8; 2; 5; 9]) "average") ->
                  lo <= v <= hi)
    /\ In lo (values (basinsWith "average" [8; 2; 5; 9]) "average")
    /\ In hi (values (basinsWith "average" [8; 2; 5; 9]) "average").
Proof.
  apply (fixed_breakpoints (basinsWith "average" [8; 2; 5; 9]) "average"%string
                           (Some 100)).
  vm_compute. discriminate.
Defined.

(** ** The diverging scale on the whole line *)

Lemma apply_valid (scale : D3.Scale) (x : Q) : valid_rgb (D3.apply scale x).
Proof.
  unfold D3.apply, D3.polymap, D3.bimap.
  repeat match goal with
         | |- context [if ?c then _ else _] => destruct c
         end; apply interpolateRgb_valid.
Qed.

Lemma normalize_nondegenerate (a b x : Q) :
  ~ a == b -> D3.normalize (Fin a) (Fin b) x = Fin ((x - a) / (b - a)).
Proof.
  intros Hab. unfold D3.normalize, Js.sub, Js.truthy.
  assert (E : Qeq_bool (b - a) 0 = false).
  { apply Qeq_bool_false. intros H. apply Hab. lra. }
  cbv beta iota zeta. rewrite E. cbn [negb Js.div Js.sub]. rewrite E. reflexivity.
Qed.

(** The breakpoints of a scale of the builder, when they are numbers. *)
Lemma diverging_finite_domain data property cutoffType cutoffValue scale lo mid hi :
  createDivergingColorScale data property cutoffType cutoffValue = Ok scale ->
  D3.domain scale = [Fin lo; Fin mid; Fin hi] ->
  scale = {| D3.domain := [Fin lo; Fin mid; Fin hi];
             D3.range := [colorLow; colorMid; colorHigh] |}
  /\ lo <= hi.
Proof.
  intros Hscale Hdom.
  destruct (diverging_shape _ _ _ _ _ Hscale) as (l & c & _ & ->).
  cbn [D3.domain] in Hdom.
  destruct (D3.extent l) as [[mn mx]|] eqn:E;
    cbn [fmap option_fmap option_map number fst snd] in Hdom;
    [|discriminate].
  injection Hdom as -> -> ->.
  cbn [fmap option_fmap option_map number fst snd].
  split; [reflexivity | now apply (extent_ordered l)].
Qed.

(** C2, amended.  The colour function of a diverging scale is defined on
    every number, whatever the data and the strategy, and every channel of
    its result lies in 0 .. 255.  With breakpoints [lo], [mid], [hi]: an
    input below [mid] is placed on the first segment, at position
    [(x - lo) / (mid - lo)], an input at or above [mid] on the second, at
    position [(x - mid) / (hi - mid)], a segment of zero width counting as
    position 1/2; each channel is the linear interpolation of the two stop
    colours at that position, rounded and kept within 0 .. 255.  So inputs
    below [lo] or above [hi] are extrapolated, not clamped to colorLow or
    colorHigh.  On a segment of positive width the channels are monotone,
    between its stops they are the plain rounded interpolation, and the
    stops get their colours: colorLow at [lo] when [lo < mid], colorMid at
    [mid] and colorHigh at [hi] when [mid < hi]. *)
Theorem diverging_scale_piecewise_linear :
  forall data property cutoffType cutoffValue scale,
    createDivergingColorScale data property cutoffType cutoffValue = Ok scale ->
    (forall x, valid_rgb (D3.apply scale x))
    /\ forall lo mid hi,
        D3.domain scale = [Fin lo; Fin mid; Fin hi] ->
        lo <= hi
        /\ (forall x, x < mid ->
              (~ lo == mid ->
               D3.apply scale x = lerp colorLow colorMid ((x - lo) / (mid - lo)))
              /\ (lo == mid -> D3.apply scale x = lerp colorLow colorMid (1 # 2)))
        /\ (forall x, mid <= x ->
              (~ mid == hi ->
               D3.apply scale x = lerp colorMid colorHigh ((x - mid) / (hi - mid)))
              /\ (mid == hi -> D3.apply scale x = lerp colorMid colorHigh (1 # 2)))
        /\ (lo < mid ->
            D3.apply scale lo = colorLow
            /\ (forall x, lo <= x -> x < mid ->
                  D3.apply scale x = mix colorLow colorMid ((x - lo) / (mid - lo)))
            /\ (forall x y, x <= y -> y < mid ->
                  channels_le (D3.apply scale x) (D3.apply scale y)))
        /\ (mid < hi ->
            D3.apply scale mid = colorMid
            /\ D3.apply scale hi = colorHigh
            /\ (forall x, mid <= x -> x <= hi ->
                  D3.apply scale x = mix colorMid colorHigh ((x - mid) / (hi - mid)))
            /\ (forall x y, mid <= x -> x <= y ->
                  channels_le (D3.apply scale y) (D3.apply scale x)))
        /\ (lo < mid -> mid < hi ->
            forall x y, x <= y -> y <= mid ->
                        channels_le (D3.apply scale x) (D3.apply scale y)).
Proof.
  intros data property cutoffType cutoffValue scale Hscale.
  split; [intros x; apply apply_valid|].
  intros lo mid hi Hdom.
  destruct (diverging_finite_domain _ _ _ _ _ _ _ _ Hscale Hdom) as [-> Hle].
  destruct valid_stops as (VL & VM & VH & _).
  destruct stops_order as (OLM & OHM & _).
  set (S := {| D3.domain := [Fin lo; Fin mid; Fin hi];
               D3.range := [colorLow; colorMid; colorHigh] |}).
  assert (Hbelow : forall x, x < mid -> ~ lo == mid ->
            D3.apply S x = lerp colorLow colorMid ((x - lo) / (mid - lo))).
  { intros x Hx Hne. unfold S. rewrite apply_three_stops by assumption.
    apply Qle_bool_false in Hx. rewrite Hx.
    now rewrite normalize_nondegenerate, interpolateRgb_lerp. }
  assert (Habove : forall x, mid <= x -> ~ mid == hi ->
            D3.apply S x = lerp colorMid colorHigh ((x - mid) / (hi - mid))).
  { intros x Hx Hne. unfold S. rewrite apply_three_stops by assumption.
    apply Qle_bool_iff in Hx. rewrite Hx.
    now rewrite normalize_nondegenerate, interpolateRgb_lerp. }
  split; [exact Hle|].
  split; [|split; [|split; [|split]]].
  - intros x Hx. split; [now apply Hbelow|].
    intros E. unfold S. rewrite apply_three_stops by assumption.
    apply Qle_bool_false in Hx. rewrite Hx.
    now rewrite normalize_degenerate, interpolateRgb_lerp.
  - intros x Hx. split; [now apply Habove|].
    intros E. unfold S. rewrite apply_three_stops by assumption.
    apply Qle_bool_iff in Hx. rewrite Hx.
    now rewrite normalize_degenerate, interpolateRgb_lerp.
  - intros H1.
    assert (Hne : ~ lo == mid) by lra.
    split; [|split].
    + rewrite Hbelow by assumption.
      apply lerp_start; [exact VL | now apply position_start].
    + intros x Hlo Hx. rewrite Hbelow by assumption.
      apply lerp_inside; auto. apply position_unit; [assumption|].
      split; [assumption | now apply Qlt_le_weak].
    + intros x y Hxy Hy. rewrite !Hbelow by (assumption || lra).
      apply lerp_up; [exact OLM | now apply position_mono].
  - intros H2.
    assert (Hne : ~ mid == hi) by lra.
    split; [|split; [|split]].
    + rewrite Habove by (assumption || apply Qle_refl).
      apply lerp_start; [exact VM | now apply position_start].
    + rewrite Habove by (assumption || now apply Qlt_le_weak).
      apply lerp_end; [exact VH | now apply position_end].
    + intros x Hx Hhi. rewrite Habove by assumption.
      apply lerp_inside; auto. apply position_unit; auto.
    + intros x y Hx Hxy. rewrite !Habove by (assumption || lra).
      apply lerp_down; [exact OHM | now apply position_mono].
  - intros H1 H2 x y Hxy Hy.
    assert (Hne1 : ~ lo == mid) by lra.
    assert (Hne2 : ~ mid == hi) by lra.
    destruct (Qlt_le_dec y mid) as [Hy'|Hy'].
    + rewrite !Hbelow by (assumption || lra).
      apply lerp_up; [exact OLM | now apply position_mono].
    + assert (Ey : D3.apply S y = colorMid).
      { rewrite Habove by assumption.
        apply lerp_start; [exact VM|]. field_simplify_eq; lra. }
      rewrite Ey.
      destruct (Qlt_le_dec x mid) as [Hx|Hx].
      * rewrite Hbelow by assumption.
        rewrite <- (lerp_end colorLow colorMid 1 VM (Qeq_refl 1)) at 2.
        apply lerp_up; [exact OLM|].
        rewrite <- (position_end lo mid H1). apply position_mono; lra.
      * rewrite Habove by assumption.
        rewrite (lerp_start colorMid colorHigh);
          [| exact VM | field_simplify_eq; lra].
        unfold channels_le; lia.
Qed.

Lemma diverging_scale_piecewise_linear_witness :
  let scale := {| D3.domain := [Fin 70000000; Fin 70000000; Fin 250000000];
                  D3.range := [colorLow; colorMid; colorHigh] |} in
  valid_rgb (D3.apply scale (-5))
  /\ D3.apply scale 3 = lerp colorLow colorMid (1 # 2)
  /\ D3.apply scale 70000000 = colorMid
  /\ D3.apply scale 250000000 = colorHigh.
Proof.
  intros scale.
  assert (H : createDivergingColorScale {| features := [nile; amur] |}
                                        "population" None None
              = Ok scale) by reflexivity.
  destruct (diverging_scale_piecewise_linear _ _ _ _ scale H) as [Hvalid Hdom].
  destruct (Hdom 70000000 70000000 250000000 eq_refl)
    as (_ & Hbelow & _ & _ & Hseg & _).
  destruct (Hseg eq_refl) as (Hmid & Hhi & _).
  split; [apply Hvalid|]. split; [|split; assumption].
  apply (proj2 (Hbelow 3 eq_refl)). reflexivity.
Defined.

(** ** One distinct value, percentile strategy *)

Lemma percentile_scale_any (data : FeatureCollection) (property : string)
      (cutoffType : option string) (cutoffValue : option Q) :
  cutoffType = None \/ cutoffType = Some "percentile"%string ->
  createDivergingColorScale data property cutoffType cutoffValue
  = Ok {| D3.domain :=
            [number (fst <$> D3.extent (Js.sort (fun a b => a - b) (values data property)));
             number (Js.index (Js.sort (fun a b => a - b) (values data property))
                       (Js.floor (inject_Z (Z.of_nat (length (values data property)))
                                  * default (3 # 10) cutoffValue)));
             number (snd <$> D3.extent (Js.sort (fun a b => a - b) (values data property)))];
          D3.range := [colorLow; colorMid; colorHigh] |}.
Proof.
  intros [-> | ->];
    unfold createDivergingColorScale; cbv zeta;
    [change (default "percentile"%string None) with "percentile"%string
    |change (default "percentile"%string (Some "percentile"%string))
       with "percentile"%string];
    rewrite bool_decide_eq_true_2 by reflexivity;
    rewrite sort_length; reflexivity.
Qed.

(** C3, amended.  For a value set with one distinct value [v], the builder
    returns on the percentile branch, at the default fraction and at any
    fraction in [0, 1), a scale whose three breakpoints all equal [v].  The
    builder has no guard of its own; d3 sends an input on a segment of zero
    width to the middle of that segment, without dividing.  So every input
    at or above [v] gets the colour halfway between colorMid and colorHigh,
    every input below [v] the colour halfway between colorLow and colorMid,
    and no input gets colorMid. *)
Theorem single_value_scale :
  forall data property v cutoffType cutoffValue,
    values data property <> [] ->
    (forall w, In w (values data property) -> w == v) ->
    cutoffType = None \/ cutoffType = Some "percentile"%string ->
    0 <= default (3 # 10) cutoffValue -> default (3 # 10) cutoffValue < 1 ->
    exists scale lo mid hi,
      createDivergingColorScale data property cutoffType cutoffValue = Ok scale
      /\ D3.domain scale = [Fin lo; Fin mid; Fin hi]
      /\ lo == v /\ mid == v /\ hi == v
      /\ (forall x, v <= x -> D3.apply scale x = lerp colorMid colorHigh (1 # 2))
      /\ (forall x, x < v -> D3.apply scale x = lerp colorLow colorMid (1 # 2))
      /\ lerp colorMid colorHigh (1 # 2) = Rgb 235 140 110
      /\ lerp colorLow colorMid (1 # 2) = Rgb 150 189 187
      /\ (forall x, D3.apply scale x <> colorMid).
Proof.
  intros data property v cutoffType cutoffValue Hne Hall Ht Hp0 Hp1.
  rewrite (percentile_scale_any data property cutoffType cutoffValue Ht).
  set (sorted := Js.sort (fun a b => a - b) (values data property)).
  assert (Hlen : length sorted = length (values data property)) by apply sort_length.
  assert (Hpos : (0 < Z.of_nat (length (values data property)))%Z).
  { destruct (values data property); [congruence | simpl; lia]. }
  assert (Hsorted : forall w, In w sorted -> w == v).
  { intros w Hw. apply Hall. eapply Permutation_in; [apply sort_perm | exact Hw]. }
  destruct (extent_nonempty sorted) as (lo & hi & Eext & _ & Hlo & Hhi).
  { intros E. rewrite E in Hlen. simpl in Hlen. lia. }
  rewrite Eext. cbn [fmap option_fmap option_map number fst snd].
  destruct (floor_fraction_bounds _ (default (3 # 10) cutoffValue) Hpos)
    as (Hin & _ & _).
  specialize (Hin Hp0 Hp1).
  unfold Js.index.
  destruct (Z.ltb_spec
              (Js.floor (inject_Z (Z.of_nat (length (values data property)))
                         * default (3 # 10) cutoffValue)) 0); [lia|].
  destruct (nth_error sorted _) as [mid|] eqn:E.
  2:{ apply nth_error_None in E. lia. }
  assert (Hmid : In mid sorted) by (eapply nth_error_In; eauto).
  cbn [number].
  assert (Elo : lo == v) by now apply Hsorted.
  assert (Emid : mid == v) by now apply Hsorted.
  assert (Ehi : hi == v) by now apply Hsorted.
  exists {| D3.domain := [Fin lo; Fin mid; Fin hi];
            D3.range := [colorLow; colorMid; colorHigh] |}, lo, mid, hi.
  split; [reflexivity|]. split; [reflexivity|].
  repeat split; auto.
  - intros x Hx. rewrite (degenerate_apply lo mid hi v) by assumption.
    apply Qle_bool_iff in Hx. now rewrite Hx.
  - intros x Hx. rewrite (degenerate_apply lo mid hi v) by assumption.
    apply Qle_bool_false in Hx. now rewrite Hx.
  - intros x. rewrite (degenerate_apply lo mid hi v) by assumption.
    destruct (Qle_bool v x); discriminate.
Qed.

Lemma single_value_scale_witness :
  exists scale lo mid hi,
    createDivergingColorScale (basinsWith "average" [7; 7]) "average" None None
    = Ok scale
    /\ D3.domain scale = [Fin lo; Fin mid; Fin hi]
    /\ lo == 7 /\ mid == 7 /\ hi == 7
    /\ (forall x, 7 <= x -> D3.apply scale x = lerp colorMid colorHigh (1 # 2))
    /\ (forall x, x < 7 -> D3.apply scale x = lerp colorLow colorMid (1 # 2))
    /\ lerp colorMid colorHigh (1 # 2) = Rgb 235 140 110
    /\ lerp colorLow colorMid (1 # 2) = Rgb 150 189 187
    /\ (forall x, D3.apply scale x <> colorMid).
Proof.
  apply (single_value_scale (basinsWith "average" [7; 7]) "average"%string 7
                            None None).
  - discriminate.
  - intros w [<-|[<-|[]]]; reflexivity.
  - left. reflexivity.
  - discriminate.
  - reflexivity.
Defined.

(** ** The fixed continuous scale, extrema equal or not *)

Lemma continuous_degenerate (mn mx x : Q) :
  mn == mx ->
  D3.apply (createFixedContinuousColorScale (Fin mn) (Fin mx)) x = Rgb 210 122 119.
Proof.
  intros E. unfold createFixedContinuousColorScale.
  rewrite apply_two_stops by (rewrite E; apply Qle_refl).
  now rewrite normalize_degenerate.
Qed.

(** C6 does not hold as stated: when every monthly value is the same, the
    two extrema coincide and the scale sends the minimum to
    rgb(210, 122, 119), not to #fee5d9.  Here the only monthly value is 5. *)
Lemma monthly_scale_equal_extrema_counterexample :
  ~ (forall data mn mx,
        calculateMonthlyGlobalMinMax data = {| min := Fin mn; max := Fin mx |} ->
        D3.apply (createFixedContinuousColorScale (Fin mn) (Fin mx)) mn = colorLight
        /\ D3.apply (createFixedContinuousColorScale (Fin mn) (Fin mx)) mx = colorDark).
Proof.
  intros H.
  destruct (H (basinsWith "jan" [5]) 5 5 eq_refl) as [Hmin _].
  vm_compute in Hmin. discriminate.
Qed.

(** C6, amended.  The extrema of the monthly data are taken once over the
    twelve month fields of all features, absent values left out: every
    monthly value of every feature lies between them and each is some
    feature's value for some month.  In monthly mode the scale is built from
    these two numbers whichever month is selected.  When the minimum is
    below the maximum, the scale sends the minimum to #fee5d9, the maximum
    to #a50f15, and every input to the interpolation of the two colours at
    position [(x - min) / (max - min)]; when the two are equal it sends
    every input to rgb(210, 122, 119).  For the extrema 0 and 100 the
    midpoint 50 is at position 1/2 and gets rgb(210, 122, 119), the colour
    halfway between the two in each channel. *)
Theorem monthly_scale_is_global :
  (forall data,
      allValues data <> [] ->
      exists mn mx,
        calculateMonthlyGlobalMinMax data = {| min := Fin mn; max := Fin mx |}
        /\ mn <= mx
        /\ (forall f month v,
               In f (features data) -> In month MONTHS -> prop f month = Val v ->
               mn <= v <= mx)
        /\ (exists f month,
               In f (features data) /\ In month MONTHS /\ prop f month = Val mn)
        /\ (exists f month,
               In f (features data) /\ In month MONTHS /\ prop f month = Val mx)
        /\ (forall month,
               In month MONTHS ->
               colorScaleEffect (Some data) "monthly" month
                                (Some (calculateMonthlyGlobalMinMax data))
               = Ok (Some (createFixedContinuousColorScale (Fin mn) (Fin mx), true)))
        /\ (mn < mx ->
            let scale := createFixedContinuousColorScale (Fin mn) (Fin mx) in
            D3.apply scale mn = colorLight
            /\ D3.apply scale mx = colorDark
            /\ (forall x, D3.apply scale x
                          = lerp colorLight colorDark ((x - mn) / (mx - mn)))
            /\ (forall x, mn <= x <= mx ->
                          D3.apply scale x
                          = mix colorLight colorDark ((x - mn) / (mx - mn))))
        /\ (mn == mx ->
            forall x, D3.apply (createFixedContinuousColorScale (Fin mn) (Fin mx)) x
                      = Rgb 210 122 119))
  /\ (let scale := createFixedContinuousColorScale (Fin 0) (Fin 100) in
      D3.apply scale 0 = colorLight
      /\ D3.apply scale 100 = colorDark
      /\ (exists t, D3.normalize (Fin 0) (Fin 100) 50 = Fin t /\ t == 1 # 2)
      /\ D3.apply scale 50 = Rgb 210 122 119
      /\ mix colorLight colorDark (1 # 2) = Rgb 210 122 119).
Proof.
  split.
  2:{ cbv zeta. split; [reflexivity|]. split; [reflexivity|].
      split; [|split; reflexivity].
      eexists. split; [reflexivity | reflexivity]. }
  intros data Hne.
  destruct (min_max_all (allValues data) Hne)
    as (mn & mx & Emn & Emx & Hall & Hinmn & Hinmx).
  exists mn, mx.
  assert (Emm : calculateMonthlyGlobalMinMax data = {| min := Fin mn; max := Fin mx |}).
  { unfold calculateMonthlyGlobalMinMax. now rewrite Emn, Emx. }
  split; [exact Emm|].
  split; [now apply Hall|].
  split; [|split; [|split; [|split; [|split]]]].
  - intros f month v Hf Hm Hv. apply Hall, allValues_In. eauto.
  - now apply allValues_In.
  - now apply allValues_In.
  - intros month Hm. rewrite Emm.
    unfold colorScaleEffect.
    rewrite bool_decide_eq_true_2 by reflexivity.
    assert (Et : truthy_str (Val month) = true).
    { apply truthy_str_true. exists month. split; [reflexivity|].
      intros ->. simpl in Hm. intuition discriminate. }
    rewrite Et. reflexivity.
  - intros Hlt scale. subst scale.
    destruct valid_stops as (_ & _ & _ & VL & VD).
    split; [|split; [|split]].
    + rewrite continuous_apply by assumption.
      apply lerp_start; [exact VL | now apply position_start].
    + rewrite continuous_apply by assumption.
      apply lerp_end; [exact VD | now apply position_end].
    + intros x. now apply continuous_apply.
    + intros x Hx. rewrite continuous_apply by assumption.
      apply lerp_inside; auto. now apply position_unit.
  - intros E x. now apply continuous_degenerate.
Qed.

Lemma monthly_scale_is_global_witness :
  exists mn mx,
    calculateMonthlyGlobalMinMax {| features := [nile; amur] |}
    = {| min := Fin mn; max := Fin mx |}
    /\ mn == 0 /\ mx == 11
    /\ D3.apply (createFixedContinuousColorScale (Fin mn) (Fin mx)) mn = colorLight
    /\ D3.apply (createFixedContinuousColorScale (Fin mn) (Fin mx)) mx = colorDark.
Proof.
  destruct (proj1 monthly_scale_is_global {| features := [nile; amur] |})
    as (mn & mx & Emm & _ & _ & _ & _ & _ & Hscale & _).
  - vm_compute. discriminate.
  - exists mn, mx.
    assert (E : calculateMonthlyGlobalMinMax {| features := [nile; amur] |}
                = {| min := Fin 0; max := Fin 11 |}) by (vm_compute; reflexivity).
    rewrite Emm in E. injection E as -> ->.
    destruct Hscale as (Hlo & Hhi & _); [reflexivity|].
    repeat split; auto; reflexivity.
Defined.

(** ** A [null] statistic in the treemap *)

(** C10.  The code departs from the claim.  The loop skips a feature only
    when a statistic is [undefined]; a feature whose average or population
    is [null] is not skipped: it gets a node that carries the [null] and has
    the value 0, since [null] counts as 0 in the product.  The value sets of
    the map's scales leave the same feature out.  The feature VOLGA, whose
    average is [null], gets the node of value 0. *)
Theorem treemap_null_statistic_kept :
  (forall before item after,
      prop item "average" = Null /\ prop item "population" <> Undefined
      \/ prop item "population" = Null /\ prop item "average" <> Undefined ->
      exists n,
        In n (children (calculateWaterScarcity (before ++ item :: after)))
        /\ id n = RIVERBASIN (properties item)
        /\ waterScarcity n = prop item "average"
        /\ population n = prop item "population"
        /\ value n == 0)
  /\ (forall item property,
         prop item property = Null -> values {| features := [item] |} property = [])
  /\ children (calculateWaterScarcity [volga])
     = [ {| id := Val "VOLGA"%string; value := 0;
            population := Val 60000000; waterScarcity := Null;
            continent := Val "Europe"%string |} ].
Proof.
  split; [|split].
  - intros l1 item l2 Hnull.
    destruct (nodeOf item) as [n|] eqn:En.
    2:{ unfold nodeOf in En.
        destruct Hnull as [[Ha Hp] | [Hp Ha]].
        - rewrite Ha in En. destruct (prop item "population"); congruence.
        - rewrite Hp in En. destruct (prop item "average"); congruence. }
    exists n. split.
    { apply children_In. exists item. split; [|exact En].
      apply in_or_app. right. now left. }
    destruct (nodeOf_Some _ _ En) as (_ & _ & Hid & Hpop & Hws & _ & Hv).
    split; [exact Hid|]. split; [exact Hws|]. split; [exact Hpop|].
    rewrite Hv.
    destruct Hnull as [[Ha _] | [Hp _]].
    + rewrite Ha. cbn [to_number]. ring.
    + rewrite Hp. cbn [to_number]. ring.
  - intros item property H. unfold values. cbn [features map].
    rewrite H. reflexivity.
  - vm_compute. reflexivity.
Qed.

Lemma treemap_null_statistic_kept_witness :
  exists n,
    In n (children (calculateWaterScarcity ([nile] ++ volga :: [amur])))
    /\ id n = Val "VOLGA"%string
    /\ waterScarcity n = Null
    /\ population n = Val 60000000
    /\ value n == 0.
Proof.
  apply (proj1 treemap_null_statistic_kept [nile] volga [amur]).
  left. split; [reflexivity | discriminate].
Defined.
